(** * The RAG chat front end (src/frontend/react-app/src/App.js)

    A shallow embedding of the two React components of the repository:
    [App], the primary chat view with its conversation, its submit handler
    and its speech bridge, and [ChatComponent], the secondary
    question/answer form.

    - JavaScript strings are sequences of UTF-16 code units.
    - A component's [useState] cells are the fields of a record; a handler
      is a computation over that record which also emits the effects it
      has on the host (network calls, alerts, console output) and either
      returns, throws, or suspends at an [await].
    - An [async] handler is cut at its [await]s: one computation up to the
      first [await], and one computation per [await] that resumes when the
      awaited promise settles.
    - The page as a whole is a transition system over user gestures, speech
      events and promise settlements, in which a gesture reaches its
      handler only when the rendered control is not disabled. *)

From Stdlib Require Import Ascii String DecimalString NArith.
From stdpp Require Import base tactics option list numbers strings.

(** * JavaScript strings *)

(** A string is the list of its UTF-16 code units. *)
Abbreviation jsstring := (list N).

(** An ASCII literal as a JavaScript string. *)
Definition lit (s : string) : jsstring :=
  N_of_ascii <$> list_ascii_of_string s.

(** ECMAScript WhiteSpace and LineTerminator code points, which are the
    ones [String.prototype.trim] strips. All of them lie in the Basic
    Multilingual Plane, so each is one code unit:
    TAB, LF, VT, FF, CR, SP, NBSP, U+1680, U+2000..U+200A, LS, PS,
    U+202F, U+205F, U+3000 and U+FEFF. *)
Definition isWhiteSpace (c : N) : bool :=
  ((9 <=? c) && (c <=? 13) || (c =? 32) || (c =? 160) || (c =? 5760)
   || (8192 <=? c) && (c <=? 8202) || (c =? 8232) || (c =? 8233)
   || (c =? 8239) || (c =? 8287) || (c =? 12288) || (c =? 65279))%N.

(** [String.prototype.trimStart]. *)
Fixpoint trimStart (s : jsstring) : jsstring :=
  match s with
  | [] => []
  | c :: s' => if isWhiteSpace c then trimStart s' else s
  end.

(** [String.prototype.trimEnd]. *)
Definition trimEnd (s : jsstring) : jsstring :=
  reverse (trimStart (reverse s)).

(** [String.prototype.trim]. *)
Definition trim (s : jsstring) : jsstring := trimEnd (trimStart s).

(** The decimal digits of a non-negative integer Number, as a template
    literal prints it. *)
Definition decimal (n : N) : jsstring :=
  lit (NilEmpty.string_of_uint (N.to_uint n)).

(** * Values that arrive from the backend *)

#[local] Set Warnings "-register-all".

(** The result of parsing a response body as JSON. A Number is kept as its
    canonical text (what [Number::toString] gives for it): the components
    never compute with a Number from the backend, they only test it for
    truthiness and print it. The members of an object are listed in the
    order of the JSON text. *)
Inductive json :=
| JNull
| JBool (b : bool)
| JNumber (repr : jsstring)
| JString (s : jsstring)
| JArray (items : list json)
| JObject (props : list (jsstring * json)).

(** What a property read can give: [undefined], or a parsed value. *)
Inductive value :=
| undefined
| of_json (j : json).

(** The member [p] of a parsed object; of several members with the same
    name the last one wins, as in [JSON.parse]. *)
Fixpoint lookup_prop (p : jsstring) (props : list (jsstring * json))
  : option json :=
  match props with
  | [] => None
  | (k, v) :: rest =>
      match lookup_prop p rest with
      | Some v' => Some v'
      | None => if bool_decide (k = p) then Some v else None
      end
  end.

(** What [o.p] reads on a parsed value other than [null], for a name [p]
    that no built-in prototype defines: the member of an object, and
    [undefined] on anything else. *)
Definition member (o : json) (p : jsstring) : value :=
  match o with
  | JObject props =>
      match lookup_prop p props with
      | Some v => of_json v
      | None => undefined
      end
  | _ => undefined
  end.

(** ECMAScript [ToBoolean], as the [||] operator applies it. *)
Definition ToBoolean (v : value) : bool :=
  match v with
  | undefined => false
  | of_json JNull => false
  | of_json (JBool b) => b
  | of_json (JNumber repr) => negb (bool_decide (repr = lit "0"))
  | of_json (JString s) => negb (bool_decide (s = []))
  | of_json (JArray _) => true
  | of_json (JObject _) => true
  end.

(** ECMAScript [ToString] on parsed JSON; [None] when the conversion
    throws a TypeError. An array prints as its elements joined by commas,
    with [null] elements printed as nothing. An object prints as the
    fixed text of [Object.prototype.toString], unless it has a member
    [toString] of its own: such a member is never a function in parsed
    JSON, it hides the method of the prototype, [valueOf] gives no
    primitive value either, and the conversion throws. *)
Fixpoint ToString_json (j : json) : option jsstring :=
  match j with
  | JNull => Some (lit "null")
  | JBool true => Some (lit "true")
  | JBool false => Some (lit "false")
  | JNumber repr => Some repr
  | JString s => Some s
  | JArray items =>
      (fix join (l : list json) : option jsstring :=
         match l with
         | [] => Some []
         | x :: rest =>
             match match x with JNull => Some [] | _ => ToString_json x end
             with
             | None => None
             | Some elem =>
                 match rest with
                 | [] => Some elem
                 | _ :: _ =>
                     match join rest with
                     | None => None
                     | Some tail => Some (elem ++ lit "," ++ tail)
                     end
                 end
             end
         end) items
  | JObject props =>
      match lookup_prop (lit "toString") props with
      | Some _ => None
      | None => Some (lit "[object Object]")
      end
  end.

Definition ToString (v : value) : option jsstring :=
  match v with
  | undefined => Some (lit "undefined")
  | of_json j => ToString_json j
  end.

(** * Exceptions, promises and effects *)

(** The exceptions that occur in the components. *)
Inductive exn :=
| HostError (message : jsstring)
    (* made by the host: the TypeError of a fetch that fails in transport,
       the SyntaxError of a body that is not JSON *)
| TypeError_read (prop : jsstring)
    (* made by the engine: a property read on null or undefined *)
| TypeError_convert (message : jsstring)
    (* made by the engine, with its message: an object that does not
       convert to a primitive value *)
| Error (message : jsstring).
    (* new Error(message) *)

(** How a promise settles. *)
Inductive settled (A : Type) :=
| Fulfilled (a : A)
| Rejected (reason : exn).
Arguments Fulfilled {A} a.
Arguments Rejected {A} reason.

(** The part of a fetch [Response] the components read before its body. *)
Record Response := { status : N }.

(** [Response.ok]: the status is in the range 200 to 299. *)
Definition ok (response : Response) : bool :=
  ((200 <=? status response) && (status response <=? 299))%N.

(** The second argument of [fetch]; [body] is the value that is handed to
    [JSON.stringify]. *)
Record RequestInit := {
  method : jsstring;
  headers : list (jsstring * jsstring);
  body : json
}.

(** The second argument of a [console.error] call. *)
Inductive logged :=
| log_exn (error : exn)
| log_string (s : jsstring).

(** What a handler does to the host. *)
Inductive effect :=
| preventDefault
| fetch (url : jsstring) (init : RequestInit)
| response_json
| console_error (label : jsstring) (arg : logged)
| alert (message : jsstring)
| recognition_start
| recognition_stop
| uncaught (error : exn).
    (* the host's report of an exception that left a handler *)

(** * Handlers as computations *)

(** A handler, or a segment of an async handler, ends by returning,
    by throwing, or by suspending at an [await] with the promise [t]. *)
Inductive completion (T A : Type) :=
| Return (a : A)
| Throw (error : exn)
| Await (t : T).
Arguments Return {T A} a.
Arguments Throw {T A} error.
Arguments Await {T A} t.

Record result (S T A : Type) := Result {
  final : S;
  effects : list effect;
  outcome : completion T A
}.
Arguments Result {S T A} final effects outcome.
Arguments final {S T A} r.
Arguments effects {S T A} r.
Arguments outcome {S T A} r.

(** A computation over the component state [S] whose awaits are named by
    [T]. *)
Definition js (S T A : Type) : Type := S → result S T A.

Section Computations.
Context {S T : Type}.

#[export] Instance js_ret : MRet (js S T) :=
  λ A a s, Result s [] (Return a).

#[export] Instance js_bind : MBind (js S T) :=
  λ A B f m s,
    let r := m s in
    match outcome r with
    | Return a =>
        let r' := f a (final r) in
        Result (final r') (effects r ++ effects r') (outcome r')
    | Throw error => Result (final r) (effects r) (Throw error)
    | Await t => Result (final r) (effects r) (Await t)
    end.

#[export] Instance js_throw : MThrow exn (js S T) :=
  λ A error s, Result s [] (Throw error).

(** [await]: suspend; the rest of the handler is the segment that the
    settlement of [t] resumes. *)
Definition await {A} (t : T) : js S T A :=
  λ s, Result s [] (Await t).

(** The value of an [await] expression once its promise has settled. *)
Definition resume {A} (p : settled A) : js S T A :=
  match p with
  | Fulfilled a => mret a
  | Rejected reason => mthrow reason
  end.

Definition emit (e : effect) : js S T () :=
  λ s, Result s [e] (Return ()).

Definition gets {A} (f : S → A) : js S T A :=
  λ s, Result s [] (Return (f s)).

Definition modify (f : S → S) : js S T () :=
  λ s, Result (f s) [] (Return ()).

(** The [finally] clause, run after [r] unless [r] is suspended. A
    finalizer that completes normally leaves the completion of what ran
    before it. *)
Definition then_finally {A} (finalizer : js S T ()) (r : result S T A)
  : result S T A :=
  match outcome r with
  | Await _ => r
  | Return _ | Throw _ =>
      let f := finalizer (final r) in
      Result (final f) (effects r ++ effects f)
        (match outcome f with
         | Return _ => outcome r
         | Throw error => Throw error
         | Await t => Await t
         end)
  end.

(** [try { block } catch (error) { handler error } finally { finalizer }].
    A block that suspends is still inside the statement: neither the
    handler nor the finalizer runs yet. *)
Definition try_catch_finally {A}
    (block : js S T A) (handler : exn → js S T A)
    (finalizer : js S T ()) : js S T A :=
  λ s,
    let r := block s in
    match outcome r with
    | Await _ => r
    | Return _ => then_finally finalizer r
    | Throw error =>
        let h := handler error (final r) in
        then_finally finalizer
          (Result (final h) (effects r ++ effects h) (outcome h))
    end.

(** A property read [o.p] on a parsed value, for a name [p] that no
    built-in prototype defines (the components read [answer] and
    [detail] only): a TypeError on [null], and otherwise the member of
    an object or [undefined]. *)
Definition get_property (o : json) (p : jsstring) : js S T value :=
  match o with
  | JNull => mthrow (TypeError_read p)
  | _ => mret (member o p)
  end.
End Computations.

(** * The primary chat view: [App] *)

Module App.

Definition API_URL : jsstring := lit "http://localhost:8000".

(** One message of the conversation: [{ text, sender }]. *)
Record Turn := { text : value; sender : jsstring }.

(** The four [useState] cells of the component. *)
Record State := {
  messages : list Turn;
  userInput : jsstring;
  isLoading : bool;
  isListening : bool
}.

(** [useState([])], [useState('')], [useState(false)], [useState(false)]. *)
Definition initial : State :=
  {| messages := []; userInput := []; isLoading := false;
     isListening := false |}.

(** The two promises [handleSendMessage] awaits. *)
Inductive task :=
| awaiting_fetch
| awaiting_json.

Abbreviation handler := (js State task ()).

Definition setMessages (update : list Turn → list Turn) : handler :=
  modify (λ s, {| messages := update (messages s);
                  userInput := userInput s;
                  isLoading := isLoading s;
                  isListening := isListening s |}).

Definition setUserInput (v : jsstring) : handler :=
  modify (λ s, {| messages := messages s;
                  userInput := v;
                  isLoading := isLoading s;
                  isListening := isListening s |}).

Definition setIsLoading (b : bool) : handler :=
  modify (λ s, {| messages := messages s;
                  userInput := userInput s;
                  isLoading := b;
                  isListening := isListening s |}).

Definition setIsListening (b : bool) : handler :=
  modify (λ s, {| messages := messages s;
                  userInput := userInput s;
                  isLoading := isLoading s;
                  isListening := b |}).

(** ** [handleSendMessage] *)

Definition generic_failure : jsstring :=
  lit "Sorry, something went wrong. Please try again.".

(** The [catch (error) { ... }] clause. *)
Definition handleSendMessage_catch (error : exn) : handler :=
  emit (console_error (lit "Error sending message:") (log_exn error));;
  let errorMessage :=
    {| text := of_json (JString generic_failure); sender := lit "bot" |} in
  setMessages (λ prev, prev ++ [errorMessage]).

(** The [finally { ... }] clause. *)
Definition handleSendMessage_finally : handler :=
  setIsLoading false.

(** The request [handleSendMessage] sends for [query]. *)
Definition chat_request (query : jsstring) : effect :=
  fetch (API_URL ++ lit "/chat")
    {| method := lit "POST";
       headers := [(lit "Content-Type", lit "application/json")];
       body := JObject [(lit "question", JString query)] |}.

(** From the submit event to [await fetch(...)]. *)
Definition handleSendMessage : handler :=
  emit preventDefault;;
  userInput ← gets userInput;
  let query := trim userInput in
  if bool_decide (query = []) then mret () else
  let userMessage :=
    {| text := of_json (JString query); sender := lit "user" |} in
  setMessages (λ prev, prev ++ [userMessage]);;
  setUserInput [];;
  setIsLoading true;;
  try_catch_finally
    (emit (chat_request query);;
     await awaiting_fetch)
    handleSendMessage_catch
    handleSendMessage_finally.

(** From the settlement of [fetch(...)] to [await response.json()]. *)
Definition handleSendMessage_after_fetch (p : settled Response) : handler :=
  try_catch_finally
    (response ← resume p;
     if negb (ok response) then
       mthrow (Error (lit "HTTP error! Status: "
                        ++ decimal (status response)))
     else
       emit response_json;;
       await awaiting_json)
    handleSendMessage_catch
    handleSendMessage_finally.

(** From the settlement of [response.json()] to the end. *)
Definition handleSendMessage_after_json (p : settled json) : handler :=
  try_catch_finally
    (botResponse ← resume p;
     answer ← get_property botResponse (lit "answer");
     let newBotMessage := {| text := answer; sender := lit "bot" |} in
     setMessages (λ prev, prev ++ [newBotMessage]))
    handleSendMessage_catch
    handleSendMessage_finally.

(** ** The speech bridge *)

(** The fixed configuration the module gives [recognition] when the host
    provides it. *)
Record RecognitionConfig := {
  continuous : bool;
  lang : jsstring;
  interimResults : bool;
  maxAlternatives : N
}.

Definition recognition_config : RecognitionConfig :=
  {| continuous := false; lang := lit "en-US"; interimResults := false;
     maxAlternatives := 1 |}.

(** A [SpeechRecognitionEvent]: a list of results, each a list of
    alternatives. *)
Record Alternative := { transcript : jsstring }.
Record SpeechEvent := { results : list (list Alternative) }.

(** [recognition.onresult]: [event.results[0][0].transcript]; an index
    out of range reads [undefined], whose property read throws. *)
Definition onresult (event : SpeechEvent) : handler :=
  match results event !! 0%nat with
  | None => mthrow (TypeError_read (lit "0"))
  | Some result0 =>
      match result0 !! 0%nat with
      | None => mthrow (TypeError_read (lit "transcript"))
      | Some alternative =>
          setUserInput (transcript alternative);;
          setIsListening false
      end
  end.

(** [recognition.onerror]; [error] is [event.error]. *)
Definition onerror (error : jsstring) : handler :=
  emit (console_error (lit "Speech recognition error:") (log_string error));;
  setIsListening false.

(** [recognition.onend]. *)
Definition onend : handler :=
  setIsListening false.

(** [handleToggleListening]; [recognition] tells whether the host
    provides speech recognition, that is whether the module constant
    [recognition] is an object rather than [null]. [start_throws] is what
    the host does with a call of [recognition.start()] at this moment: it
    returns, or it throws (an InvalidStateError, when the recognition is
    started already and neither its end nor an error has been
    reported). [recognition.stop()] does not throw. *)
Definition handleToggleListening (recognition : bool)
    (start_throws : option exn) : handler :=
  if negb recognition then
    emit (alert (lit "Sorry, your browser doesn't support voice recognition."))
  else
    isListening ← gets isListening;
    (if isListening then emit recognition_stop
     else
       emit recognition_start;;
       match start_throws with
       | Some error => mthrow error
       | None => mret ()
       end);;
    setIsListening (negb isListening).

(** The [onChange] of the text input; [v] is [e.target.value]. *)
Definition onChange (v : jsstring) : handler :=
  setUserInput v.

(** ** The render surface *)

Inductive Avatar :=
| person
| robot.

(** One entry of the message list. *)
Record MessageView := {
  container_class : jsstring;
  avatar : Avatar;
  message_class : jsstring;
  content : value
}.

Record MicView := { mic_listening : bool; mic_disabled : bool }.

(** The tree of elements [App] returns, as far as it depends on the
    state: the message list, the loading indicator, the text input, the
    microphone button (present only when [recognition] is) and the send
    button. What React makes of the tree is [displayed], below. *)
Record View := {
  message_list : list MessageView;
  loading_indicator : bool;
  input_value : jsstring;
  input_disabled : bool;
  mic_button : option MicView;
  send_disabled : bool
}.

Definition render_message (msg : Turn) : MessageView :=
  {| container_class := lit "message-container " ++ sender msg;
     avatar := if bool_decide (sender msg = lit "user") then person
               else robot;
     message_class := lit "message " ++ sender msg;
     content := text msg |}.

Definition render (recognition : bool) (s : State) : View :=
  {| message_list := render_message <$> messages s;
     loading_indicator := isLoading s;
     input_value := userInput s;
     input_disabled := isLoading s;
     mic_button :=
       if recognition then
         Some {| mic_listening := isListening s;
                 mic_disabled := isLoading s |}
       else None;
     send_disabled :=
       isLoading s || bool_decide (trim (userInput s) = []) |}.

(** ** The page as a transition system *)

(** The component state and the suspended activations of
    [handleSendMessage], oldest first. *)
Record World := { app : State; pending : list task }.

Definition start : World := {| app := initial; pending := [] |}.

(** What can happen to the page: user gestures, speech events, and the
    settlement of the promise the [i]-th suspended activation awaits. A
    click on the microphone button comes with what the host does with
    [recognition.start()] at that moment. *)
Inductive event :=
| Type_into_input (v : jsstring)
| Click_send
| Press_enter
| Click_mic (start_throws : option exn)
| Speech_result (ev : SpeechEvent)
| Speech_error (error : jsstring)
| Speech_end
| Fetch_settles (i : nat) (p : settled Response)
| Json_settles (i : nat) (p : settled json).

(** The effects of a run, with the host's report when it threw. *)
Definition reported (r : result State task ()) : list effect :=
  effects r ++ match outcome r with
               | Throw error => [uncaught error]
               | _ => []
               end.

(** Run a handler of a fresh event; if it suspends, it joins the
    suspended activations. *)
Definition dispatch (h : handler) (w : World) : World * list effect :=
  let r := h (app w) in
  ({| app := final r;
      pending := pending w ++ match outcome r with
                              | Await t => [t]
                              | _ => []
                              end |},
   reported r).

(** Resume the [i]-th suspended activation with [h]; it stays in its
    place if it suspends again and leaves otherwise. *)
Definition continue (i : nat) (h : handler) (w : World)
  : World * list effect :=
  let r := h (app w) in
  ({| app := final r;
      pending := match outcome r with
                 | Await t => <[i := t]> (pending w)
                 | _ => delete i (pending w)
                 end |},
   reported r).

(** One event. A gesture on a control that is disabled or not rendered
    does not happen: a disabled button takes no click, a disabled text
    input takes neither typing nor the Enter key, and Enter does not
    submit a form whose submit button is disabled. The recognition
    callbacks exist only when [recognition] does, and a promise settles
    only for an activation that awaits it. *)
Definition step (recognition : bool) (w : World) (e : event)
  : World * list effect :=
  let view := render recognition (app w) in
  match e with
  | Type_into_input v =>
      if input_disabled view then (w, [])
      else dispatch (onChange v) w
  | Click_send =>
      if send_disabled view then (w, [])
      else dispatch handleSendMessage w
  | Press_enter =>
      if input_disabled view || send_disabled view then (w, [])
      else dispatch handleSendMessage w
  | Click_mic start_throws =>
      match mic_button view with
      | Some mic =>
          if mic_disabled mic then (w, [])
          else dispatch (handleToggleListening recognition start_throws) w
      | None => (w, [])
      end
  | Speech_result ev =>
      if recognition then dispatch (onresult ev) w else (w, [])
  | Speech_error error =>
      if recognition then dispatch (onerror error) w else (w, [])
  | Speech_end =>
      if recognition then dispatch onend w else (w, [])
  | Fetch_settles i p =>
      match pending w !! i with
      | Some awaiting_fetch => continue i (handleSendMessage_after_fetch p) w
      | _ => (w, [])
      end
  | Json_settles i p =>
      match pending w !! i with
      | Some awaiting_json => continue i (handleSendMessage_after_json p) w
      | _ => (w, [])
      end
  end.

(** A sequence of events, with the effects in order. *)
Fixpoint run (recognition : bool) (w : World) (es : list event)
  : World * list effect :=
  match es with
  | [] => (w, [])
  | e :: es' =>
      let '(w1, out1) := step recognition w e in
      let '(w2, out2) := run recognition w1 es' in
      (w2, out1 ++ out2)
  end.

(** The requests among a list of effects. *)
Definition is_fetch (e : effect) : bool :=
  match e with fetch _ _ => true | _ => false end.

Definition requests (out : list effect) : list effect :=
  filter (λ e, is_fetch e = true) out.

End App.

(** * The secondary variant: [ChatComponent] *)

Module ChatComponent.

Definition API_URL : jsstring := lit "http://localhost:8000".

(** The four [useState] cells; [error] is [null] or a message. *)
Record State := {
  question : jsstring;
  answer : value;
  isLoading : bool;
  error : option jsstring
}.

Definition initial : State :=
  {| question := []; answer := of_json (JString []); isLoading := false;
     error := None |}.

(** The promises [handleSubmit] awaits: the fetch, the body of a
    response that is not ok, the body of one that is. *)
Inductive task :=
| awaiting_fetch
| awaiting_error_json (response : Response)
| awaiting_json.

Abbreviation handler := (js State task ()).

Definition setQuestion (v : jsstring) : handler :=
  modify (λ s, {| question := v; answer := answer s;
                  isLoading := isLoading s; error := error s |}).

Definition setAnswer (v : value) : handler :=
  modify (λ s, {| question := question s; answer := v;
                  isLoading := isLoading s; error := error s |}).

Definition setIsLoading (b : bool) : handler :=
  modify (λ s, {| question := question s; answer := answer s;
                  isLoading := b; error := error s |}).

Definition setError (v : option jsstring) : handler :=
  modify (λ s, {| question := question s; answer := answer s;
                  isLoading := isLoading s; error := v |}).

(** [a || b]. *)
Definition or_else (a b : value) : value :=
  if ToBoolean a then a else b.

Definition chat_request (question : jsstring) : effect :=
  fetch (API_URL ++ lit "/chat")
    {| method := lit "POST";
       headers := [(lit "Content-Type", lit "application/json")];
       body := JObject [(lit "question", JString question)] |}.

Section Engine.
(** The message the engine gives the TypeError of a property read on
    [null], by the name of the property. *)
Context (TypeError_message : jsstring → jsstring).

(** The message the engine gives the TypeError of an object that does not
    convert to a primitive value. *)
Context (cannot_convert : jsstring).

(** [err.message]. *)
Definition message (err : exn) : jsstring :=
  match err with
  | HostError m => m
  | TypeError_read prop => TypeError_message prop
  | TypeError_convert m => m
  | Error m => m
  end.

(** [new Error(message)]: the message is converted to a string, which
    can throw, and an [undefined] one leaves the empty message of the
    prototype. *)
Definition new_Error (message : value) : js State task exn :=
  match message with
  | undefined => mret (Error [])
  | of_json j =>
      match ToString_json j with
      | Some m => mret (Error m)
      | None => mthrow (TypeError_convert cannot_convert)
      end
  end.

(** The [catch (err) { ... }] clause. *)
Definition handleSubmit_catch (err : exn) : handler :=
  setError (Some (message err));;
  emit (console_error (lit "Failed to fetch chat response:")
          (log_exn err)).

(** The [finally { ... }] clause. *)
Definition handleSubmit_finally : handler :=
  setIsLoading false.

(** From the submit event to [await fetch(...)]. *)
Definition handleSubmit : handler :=
  emit preventDefault;;
  question ← gets question;
  if bool_decide (trim question = []) then mret () else
  setIsLoading true;;
  setError None;;
  setAnswer (of_json (JString []));;
  try_catch_finally
    (emit (chat_request question);;
     await awaiting_fetch)
    handleSubmit_catch
    handleSubmit_finally.

(** From the settlement of [fetch(...)] to the [await response.json()]
    of either branch. *)
Definition handleSubmit_after_fetch (p : settled Response) : handler :=
  try_catch_finally
    (response ← resume p;
     if negb (ok response) then
       emit response_json;;
       await (awaiting_error_json response)
     else
       emit response_json;;
       await awaiting_json)
    handleSubmit_catch
    handleSubmit_finally.

(** The branch of a response that is not ok, from the settlement of
    its [response.json()]. *)
Definition handleSubmit_after_error_json
    (response : Response) (p : settled json) : handler :=
  try_catch_finally
    (errorData ← resume p;
     detail ← get_property errorData (lit "detail");
     error ← new_Error
               (or_else detail
                  (of_json (JString (lit "HTTP error! status: "
                                       ++ decimal (status response)))));
     mthrow error)
    handleSubmit_catch
    handleSubmit_finally.

(** The branch of a response that is ok, from the settlement of its
    [response.json()]. *)
Definition handleSubmit_after_json (p : settled json) : handler :=
  try_catch_finally
    (data ← resume p;
     answer ← get_property data (lit "answer");
     setAnswer answer)
    handleSubmit_catch
    handleSubmit_finally.
End Engine.

(** What the JSX shows below the form: [{error && <div>Error: {error}</div>}]
    shows the message in the error line when it is not empty. *)
Definition error_line (s : State) : option jsstring :=
  match error s with
  | Some e => if bool_decide (e = []) then None else Some e
  | None => None
  end.

End ChatComponent.

(** * Vocabulary of the properties *)

(** A string that is empty or consists of white space only. *)
Definition whitespace_only (s : jsstring) : Prop :=
  Forall (λ c, isWhiteSpace c = true) s.

(** The Turn [handleSendMessage] makes for the query [q]. *)
Definition user_turn (q : jsstring) : App.Turn :=
  {| App.text := of_json (JString q); App.sender := lit "user" |}.

(** A Turn of the bot with text [v]. *)
Definition bot_turn (v : value) : App.Turn :=
  {| App.text := v; App.sender := lit "bot" |}.

(** The Turn that carries the fixed generic failure message. *)
Definition failure_turn : App.Turn :=
  bot_turn (of_json (JString App.generic_failure)).

(** The component state with [t] appended to the conversation and the
    loading flag down. *)
Definition settled_with (t : App.Turn) (s : App.State) : App.State :=
  {| App.messages := App.messages s ++ [t];
     App.userInput := App.userInput s;
     App.isLoading := false;
     App.isListening := App.isListening s |}.

(** The sender of a Turn is one of the two the data model allows. *)
Definition valid_sender (t : App.Turn) : Prop :=
  App.sender t = lit "user" ∨ App.sender t = lit "bot".

(** A conversation of alternating user and bot Turns; the flag tells
    whether its last Turn is a user Turn that has no answer yet. *)
Inductive alternating : bool → list App.Turn → Prop :=
| alternating_nil : alternating false []
| alternating_user ms q :
    alternating false ms → alternating true (ms ++ [user_turn q])
| alternating_bot ms v :
    alternating true ms → alternating false (ms ++ [bot_turn v]).

(** A response that is not a 2xx one. *)
Definition not_2xx (response : Response) : Prop :=
  (status response < 200 ∨ 299 < status response)%N.

(** A fetch that fails in transport or ends in a response that is not a
    2xx one. *)
Definition failed (p : settled Response) : Prop :=
  match p with
  | Rejected _ => True
  | Fulfilled response => not_2xx response
  end.

(** A parsed body without a member [p]: an object that has none of that
    name, or a value that is not an object. *)
Definition lacks (p : jsstring) (j : json) : Prop :=
  match j with
  | JObject props => lookup_prop p props = None
  | _ => True
  end.

(** The message of the fallback in [ChatComponent]. *)
Definition http_status_message (response : Response) : jsstring :=
  lit "HTTP error! status: " ++ decimal (status response).

(** A handler that leaves the conversation and the loading flag alone
    and does not suspend. *)
Definition quiet (h : App.handler) : Prop :=
  ∀ s, App.messages (final (h s)) = App.messages s
       ∧ App.isLoading (final (h s)) = App.isLoading s
       ∧ ∀ t, outcome (h s) ≠ Await t.

(** The state of the page right after a submission of [q]. *)
Definition submitted (q : jsstring) (s : App.State) : App.State :=
  {| App.messages := App.messages s ++ [user_turn q];
     App.userInput := [];
     App.isLoading := true;
     App.isListening := App.isListening s |}.

(** A page whose conversation alternates, with an unanswered user Turn
    exactly while loading, and with one suspended activation while
    loading and none otherwise. *)
Definition consistent (w : App.World) : Prop :=
  alternating (App.isLoading (App.app w)) (App.messages (App.app w))
  ∧ length (App.pending w) = if App.isLoading (App.app w) then 1 else 0.

(** The page after the events [es], stopped at the first event that
    leaves it not loading. *)
Fixpoint until_idle (recognition : bool) (w : App.World)
    (es : list App.event) : App.World :=
  match es with
  | [] => w
  | e :: es' =>
      let w' := (App.step recognition w e).1 in
      if App.isLoading (App.app w') then until_idle recognition w' es'
      else w'
  end.

(** The [detail] string of an error body, when it has one. *)
Definition detail_string (p : settled json) : option jsstring :=
  match p with
  | Fulfilled (JObject props) =>
      match lookup_prop (lit "detail") props with
      | Some (JString d) => Some d
      | _ => None
      end
  | _ => None
  end.

(** The message V8 gives the TypeError of an object that does not convert
    to a primitive value. *)
Definition v8_cannot_convert : jsstring :=
  lit "Cannot convert object to primitive value".

(** The message V8 gives the TypeError of a property read on [null]. *)
Definition v8_TypeError_message (prop : jsstring) : jsstring :=
  lit "Cannot read properties of null (reading '" ++ prop ++ lit "')".

(** * The secondary variant as a page *)

Module ChatPage.

(** The tree of elements [ChatComponent] returns, as far as it depends
    on the state: the text input, the submit button with its label, the
    error line, and what [{answer && <p>...</p>}] leaves: the answer
    paragraph for a truthy answer, and otherwise the falsy answer itself
    as a bare child (of which React prints a number and skips the rest).
    React refuses an answer that is an object, or an array that holds
    one, as the child of the paragraph, and then shows nothing of the
    component. *)
Record View := {
  input_value : jsstring;
  input_disabled : bool;
  button_disabled : bool;
  button_label : jsstring;
  error_shown : option jsstring;
  answer_shown : option value;
  answer_bare : option value
}.

Definition render (s : ChatComponent.State) : View :=
  {| input_value := ChatComponent.question s;
     input_disabled := ChatComponent.isLoading s;
     button_disabled := ChatComponent.isLoading s;
     button_label :=
       if ChatComponent.isLoading s then lit "Thinking..." else lit "Send";
     error_shown := ChatComponent.error_line s;
     answer_shown :=
       if ToBoolean (ChatComponent.answer s)
       then Some (ChatComponent.answer s) else None;
     answer_bare :=
       if ToBoolean (ChatComponent.answer s)
       then None else Some (ChatComponent.answer s) |}.

(** The component state and the suspended activations of [handleSubmit],
    oldest first. *)
Record World := {
  chat : ChatComponent.State;
  pending : list ChatComponent.task
}.

Definition start : World :=
  {| chat := ChatComponent.initial; pending := [] |}.

Inductive event :=
| Type_into_input (v : jsstring)
| Click_send
| Press_enter
| Fetch_settles (i : nat) (p : settled Response)
| Error_json_settles (i : nat) (p : settled json)
| Json_settles (i : nat) (p : settled json).

Definition reported (r : result ChatComponent.State ChatComponent.task ())
  : list effect :=
  effects r ++ match outcome r with
               | Throw error => [uncaught error]
               | _ => []
               end.

Definition dispatch (h : ChatComponent.handler) (w : World)
  : World * list effect :=
  let r := h (chat w) in
  ({| chat := final r;
      pending := pending w ++ match outcome r with
                              | Await t => [t]
                              | _ => []
                              end |},
   reported r).

Definition continue (i : nat) (h : ChatComponent.handler) (w : World)
  : World * list effect :=
  let r := h (chat w) in
  ({| chat := final r;
      pending := match outcome r with
                 | Await t => <[i := t]> (pending w)
                 | _ => delete i (pending w)
                 end |},
   reported r).

(** One event. The text input and the submit button are disabled while
    loading, and only then: a blank question still reaches
    [handleSubmit]. A promise settles only for an activation that awaits
    it. [engine] gives the message of the TypeError of a read on [null],
    and [cannot_convert] is the message of the TypeError of an object
    that does not convert to a primitive value. *)
Definition step (engine : jsstring → jsstring) (cannot_convert : jsstring)
    (w : World) (e : event) : World * list effect :=
  let view := render (chat w) in
  match e with
  | Type_into_input v =>
      if input_disabled view then (w, [])
      else dispatch (ChatComponent.setQuestion v) w
  | Click_send =>
      if button_disabled view then (w, [])
      else dispatch (ChatComponent.handleSubmit engine) w
  | Press_enter =>
      if input_disabled view || button_disabled view then (w, [])
      else dispatch (ChatComponent.handleSubmit engine) w
  | Fetch_settles i p =>
      match pending w !! i with
      | Some ChatComponent.awaiting_fetch =>
          continue i (ChatComponent.handleSubmit_after_fetch engine p) w
      | _ => (w, [])
      end
  | Error_json_settles i p =>
      match pending w !! i with
      | Some (ChatComponent.awaiting_error_json response) =>
          continue i
            (ChatComponent.handleSubmit_after_error_json engine cannot_convert
               response p) w
      | _ => (w, [])
      end
  | Json_settles i p =>
      match pending w !! i with
      | Some ChatComponent.awaiting_json =>
          continue i (ChatComponent.handleSubmit_after_json engine p) w
      | _ => (w, [])
      end
  end.

Fixpoint run (engine : jsstring → jsstring) (cannot_convert : jsstring)
    (w : World) (es : list event) : World * list effect :=
  match es with
  | [] => (w, [])
  | e :: es' =>
      let '(w1, out1) := step engine cannot_convert w e in
      let '(w2, out2) := run engine cannot_convert w1 es' in
      (w2, out1 ++ out2)
  end.

End ChatPage.

(** * Further vocabulary *)

(** The question of a user Turn. *)
Definition query_of (t : App.Turn) : option jsstring :=
  if bool_decide (App.sender t = lit "user") then
    match App.text t with
    | of_json (JString q) => Some q
    | _ => None
    end
  else None.

(** The questions of the user Turns of a conversation, in order. *)
Definition queries (ms : list App.Turn) : list jsstring :=
  omap query_of ms.

(** A string that is not empty and neither begins nor ends with white
    space. *)
Definition trimmed (q : jsstring) : Prop :=
  q ≠ []
  ∧ (∀ c, head q = Some c → isWhiteSpace c = false)
  ∧ (∀ c, last q = Some c → isWhiteSpace c = false).

(** The state of [App] with the input text [v]. *)
Definition with_input (v : jsstring) (s : App.State) : App.State :=
  {| App.messages := App.messages s;
     App.userInput := v;
     App.isLoading := App.isLoading s;
     App.isListening := App.isListening s |}.

(** The state of [App] with the listening flag [b]. *)
Definition with_listening (b : bool) (s : App.State) : App.State :=
  {| App.messages := App.messages s;
     App.userInput := App.userInput s;
     App.isLoading := App.isLoading s;
     App.isListening := b |}.

(** The page with the component state [s] and the suspended activations
    of [w]. *)
Definition with_app (s : App.State) (w : App.World) : App.World :=
  {| App.app := s; App.pending := App.pending w |}.

(** Whether React takes a parsed value as a child of an element: it
    prints text and numbers, skips [null] and the booleans, takes an
    array element by element, and refuses an object. *)
Fixpoint renderable_json (j : json) : bool :=
  match j with
  | JObject _ => false
  | JArray items =>
      (fix all (l : list json) : bool :=
         match l with
         | [] => true
         | x :: rest => renderable_json x && all rest
         end) items
  | _ => true
  end.

(** The same for the text of a Turn, which can be [undefined]. *)
Definition renderable (v : value) : bool :=
  match v with
  | undefined => true
  | of_json j => renderable_json j
  end.

(** What React shows of the primary view: the tree [App] returns, when
    every Turn has a text that React takes as a child, and nothing
    otherwise: React throws on the first text it refuses, and as no error
    boundary is around it, it takes the whole view down. *)
Definition displayed (recognition : bool) (s : App.State)
  : option App.View :=
  if forallb (λ t, renderable (App.text t)) (App.messages s)
  then Some (App.render recognition s)
  else None.

(** The best transcript of a speech event, [event.results[0][0]], when
    the event has one. *)
Definition best (ev : App.SpeechEvent) : option App.Alternative :=
  App.results ev !! 0 ≫= (.!! 0).

(** The events of the speech bridge: the microphone button and the
    callbacks of the recognition. *)
Definition of_speech_bridge (e : App.event) : bool :=
  match e with
  | App.Click_mic _ | App.Speech_result _ | App.Speech_error _
  | App.Speech_end => true
  | _ => false
  end.

(** The state of [ChatComponent] right after a submission. *)
Definition asked (c : ChatComponent.State) : ChatComponent.State :=
  {| ChatComponent.question := ChatComponent.question c;
     ChatComponent.answer := of_json (JString []);
     ChatComponent.isLoading := true;
     ChatComponent.error := None |}.

(** The state of [ChatComponent] after a call that ended with the error
    message [m]. *)
Definition refused (m : jsstring) (c : ChatComponent.State)
  : ChatComponent.State :=
  {| ChatComponent.question := ChatComponent.question c;
     ChatComponent.answer := ChatComponent.answer c;
     ChatComponent.isLoading := false;
     ChatComponent.error := Some m |}.

(** The state of [ChatComponent] after a call that ended with the answer
    [v]. *)
Definition answered (v : value) (c : ChatComponent.State)
  : ChatComponent.State :=
  {| ChatComponent.question := ChatComponent.question c;
     ChatComponent.answer := v;
     ChatComponent.isLoading := false;
     ChatComponent.error := ChatComponent.error c |}.

(** A page of [ChatComponent] with one suspended activation while loading
    and none otherwise, with neither answer nor error while loading, and
    never with both. *)
Definition chat_consistent (w : ChatPage.World) : Prop :=
  let c := ChatPage.chat w in
  length (ChatPage.pending w) = (if ChatComponent.isLoading c then 1 else 0)
  ∧ (ChatComponent.isLoading c = true →
     ChatComponent.error c = None
     ∧ ChatComponent.answer c = of_json (JString []))
  ∧ (ChatComponent.error c = None
     ∨ ChatComponent.answer c = of_json (JString [])).

(** * Properties *)

(** ** Strings *)

Lemma trimStart_nil (s : jsstring) :
  trimStart s = [] ↔ Forall (λ c, isWhiteSpace c = true) s.
Proof.
  induction s as [|c s IH]; simpl.
  - split; [constructor | done].
  - destruct (isWhiteSpace c) eqn:Hc.
    + rewrite IH. split; [by constructor | by inversion 1].
    + split; [done | inversion 1; congruence].
Qed.

Lemma trimStart_head (s : jsstring) (c : N) (t : jsstring) :
  trimStart s = c :: t → isWhiteSpace c = false.
Proof.
  induction s as [|d s IH]; simpl; [done|].
  destruct (isWhiteSpace d) eqn:Hd; [done|]. by intros [= <- _].
Qed.

Lemma trimStart_suffix (s : jsstring) : trimStart s `suffix_of` s.
Proof.
  induction s as [|c s IH]; simpl; [done|].
  destruct (isWhiteSpace c); [by apply suffix_cons_r | done].
Qed.

Lemma trim_nil (s : jsstring) :
  trim s = [] ↔ Forall (λ c, isWhiteSpace c = true) s.
Proof.
  unfold trim, trimEnd.
  rewrite <- (reverse_involutive []), (inj_iff reverse). simpl.
  rewrite trimStart_nil, Forall_reverse.
  split.
  - intros Hall. apply trimStart_nil.
    destruct (trimStart s) as [|c t] eqn:Hs; [done|].
    apply trimStart_head in Hs. inversion Hall; congruence.
  - intros Hall. by apply trimStart_nil in Hall as ->.
Qed.

(** ** The segments of [App.handleSendMessage] *)

Section HandleSendMessage.
Import App.

Lemma ok_false (response : Response) :
  ok response = false ↔ not_2xx response.
Proof.
  unfold ok, not_2xx. rewrite andb_false_iff, !N.leb_gt. done.
Qed.

Lemma ok_true (response : Response) :
  ok response = true ↔ (200 ≤ status response ≤ 299)%N.
Proof. unfold ok. rewrite andb_true_iff, !N.leb_le. done. Qed.

Lemma handleSendMessage_blank (s : State) :
  trim (userInput s) = [] →
  handleSendMessage s = Result s [preventDefault] (Return ()).
Proof.
  intros Hq. unfold handleSendMessage. cbv [mbind js_bind emit gets].
  cbn [outcome final effects]. rewrite Hq. done.
Qed.

Lemma handleSendMessage_send (s : State) :
  trim (userInput s) ≠ [] →
  handleSendMessage s =
    Result (submitted (trim (userInput s)) s)
           [preventDefault; chat_request (trim (userInput s))]
           (Await awaiting_fetch).
Proof.
  intros Hq. unfold handleSendMessage. cbv [mbind js_bind emit gets].
  cbn [outcome final effects]. rewrite bool_decide_eq_false_2 by done.
  done.
Qed.

Lemma after_fetch_rejected (reason : exn) (s : State) :
  handleSendMessage_after_fetch (Rejected reason) s =
    Result (settled_with failure_turn s)
           [console_error (lit "Error sending message:") (log_exn reason)]
           (Return ()).
Proof. done. Qed.

Lemma after_fetch_not_ok (response : Response) (s : State) :
  ok response = false →
  handleSendMessage_after_fetch (Fulfilled response) s =
    Result (settled_with failure_turn s)
           [console_error (lit "Error sending message:")
              (log_exn (Error (lit "HTTP error! Status: "
                                 ++ decimal (status response))))]
           (Return ()).
Proof.
  intros Hok. unfold handleSendMessage_after_fetch, try_catch_finally.
  cbv [mbind js_bind resume mret js_ret]. cbn [outcome final effects].
  rewrite Hok. done.
Qed.

Lemma after_fetch_ok (response : Response) (s : State) :
  ok response = true →
  handleSendMessage_after_fetch (Fulfilled response) s =
    Result s [response_json] (Await awaiting_json).
Proof.
  intros Hok. unfold handleSendMessage_after_fetch, try_catch_finally.
  cbv [mbind js_bind resume mret js_ret]. cbn [outcome final effects].
  rewrite Hok. by destruct s.
Qed.

Lemma after_json_rejected (reason : exn) (s : State) :
  handleSendMessage_after_json (Rejected reason) s =
    Result (settled_with failure_turn s)
           [console_error (lit "Error sending message:") (log_exn reason)]
           (Return ()).
Proof. done. Qed.

Lemma after_json_null (s : State) :
  handleSendMessage_after_json (Fulfilled JNull) s =
    Result (settled_with failure_turn s)
           [console_error (lit "Error sending message:")
              (log_exn (TypeError_read (lit "answer")))]
           (Return ()).
Proof. done. Qed.

Lemma after_json_value (j : json) (s : State) :
  j ≠ JNull →
  handleSendMessage_after_json (Fulfilled j) s =
    Result (settled_with (bot_turn (member j (lit "answer"))) s) []
           (Return ()).
Proof. intros Hj. by destruct j. Qed.
End HandleSendMessage.

(** ** Every handler of [App] against the conversation *)

Section Handlers.
Import App.

Lemma onChange_quiet (v : jsstring) : quiet (onChange v).
Proof. by intros s. Qed.

Lemma onresult_quiet (ev : SpeechEvent) : quiet (onresult ev).
Proof.
  intros s. unfold onresult.
  destruct (results ev !! 0%nat) as [r0|]; [|done].
  by destruct (r0 !! 0%nat).
Qed.

Lemma onerror_quiet (error : jsstring) : quiet (onerror error).
Proof. by intros s. Qed.

Lemma onend_quiet : quiet onend.
Proof. by intros s. Qed.

Lemma handleToggleListening_accepted (s : State) :
  handleToggleListening true None s =
    Result {| messages := messages s;
              userInput := userInput s;
              isLoading := isLoading s;
              isListening := negb (isListening s) |}
           [if isListening s then recognition_stop else recognition_start]
           (Return ()).
Proof.
  unfold handleToggleListening. cbn [negb].
  cbv [mbind js_bind gets]. cbn [outcome final effects].
  by destruct (isListening s).
Qed.

Lemma handleToggleListening_stop (start_throws : option exn) (s : State) :
  isListening s = true →
  handleToggleListening true start_throws s =
    Result {| messages := messages s;
              userInput := userInput s;
              isLoading := isLoading s;
              isListening := false |}
           [recognition_stop] (Return ()).
Proof.
  intros Hl. unfold handleToggleListening. cbn [negb].
  cbv [mbind js_bind gets]. cbn [outcome final effects].
  by rewrite Hl.
Qed.

Lemma handleToggleListening_rejected (error : exn) (s : State) :
  isListening s = false →
  handleToggleListening true (Some error) s =
    Result s [recognition_start] (Throw error).
Proof.
  intros Hl. unfold handleToggleListening. cbn [negb].
  cbv [mbind js_bind gets]. cbn [outcome final effects].
  by rewrite Hl.
Qed.

Lemma handleToggleListening_unsupported
    (start_throws : option exn) (s : State) :
  handleToggleListening false start_throws s =
    Result s
      [alert (lit "Sorry, your browser doesn't support voice recognition.")]
      (Return ()).
Proof. done. Qed.

Lemma handleToggleListening_quiet
    (recognition : bool) (start_throws : option exn) :
  quiet (handleToggleListening recognition start_throws).
Proof.
  intros s. destruct recognition.
  - destruct (isListening s) eqn:Hl.
    + by rewrite handleToggleListening_stop.
    + destruct start_throws as [error|].
      * by rewrite handleToggleListening_rejected.
      * rewrite handleToggleListening_accepted. by rewrite Hl.
  - by rewrite handleToggleListening_unsupported.
Qed.

Lemma after_fetch_cases (p : settled Response) (s : State) :
  (failed p
   ∧ ∃ out, handleSendMessage_after_fetch p s
            = Result (settled_with failure_turn s) out (Return ()))
  ∨ ((∃ response, p = Fulfilled response ∧ ok response = true)
     ∧ handleSendMessage_after_fetch p s
       = Result s [response_json] (Await awaiting_json)).
Proof.
  destruct p as [response|reason].
  - destruct (ok response) eqn:Hok.
    + right. split; [by eexists|]. by apply after_fetch_ok.
    + left. split; [by apply ok_false|].
      eexists. by apply after_fetch_not_ok.
  - left. split; [done|]. eexists. apply after_fetch_rejected.
Qed.

Lemma after_json_settles (p : settled json) (s : State) :
  ∃ v out, handleSendMessage_after_json p s
           = Result (settled_with (bot_turn v) s) out (Return ()).
Proof.
  destruct p as [j|reason].
  - destruct j; [do 2 eexists; apply after_json_null|..];
      (do 2 eexists; by apply after_json_value).
  - do 2 eexists. apply after_json_rejected.
Qed.
End Handlers.

(** ** One event of the page *)

Section Page.
Import App.
Context (recognition : bool).

Lemma dispatch_quiet (h : handler) (w : World) :
  quiet h →
  messages (app (dispatch h w).1) = messages (app w)
  ∧ isLoading (app (dispatch h w).1) = isLoading (app w)
  ∧ pending (dispatch h w).1 = pending w.
Proof.
  intros Hq. destruct (Hq (app w)) as (Hm & Hl & Ha).
  unfold dispatch. cbn [fst app pending]. split_and!; [done..|].
  destruct (outcome (h (app w))) as [| |t]; [apply app_nil_r.. |].
  by destruct (Ha t).
Qed.

Lemma dispatch_submit (w : World) :
  trim (userInput (app w)) ≠ [] →
  dispatch handleSendMessage w =
    ({| app := submitted (trim (userInput (app w))) (app w);
        pending := pending w ++ [awaiting_fetch] |},
     [preventDefault; chat_request (trim (userInput (app w)))]).
Proof.
  intros Hq. unfold dispatch, reported.
  by rewrite handleSendMessage_send.
Qed.

(** What one event does: nothing to the conversation and the loading
    flag; or a submission; or the settlement of a suspended activation
    with one Turn of the bot. *)
Lemma step_cases (w : World) (e : event) :
  let w' := (step recognition w e).1 in
  (messages (app w') = messages (app w)
   ∧ isLoading (app w') = isLoading (app w)
   ∧ length (pending w') = length (pending w))
  ∨ (isLoading (app w) = false
     ∧ trim (userInput (app w)) ≠ []
     ∧ app w' = submitted (trim (userInput (app w))) (app w)
     ∧ pending w' = pending w ++ [awaiting_fetch])
  ∨ (∃ i v, i < length (pending w)
     ∧ app w' = settled_with (bot_turn v) (app w)
     ∧ pending w' = delete i (pending w)).
Proof.
  destruct e as [v| | |start_throws|ev|error| |i p|i p]; cbn [step].
  - (* typing *)
    unfold render; cbn [input_disabled].
    destruct (isLoading (app w)) eqn:Hl; [by left|].
    left. destruct (dispatch_quiet (onChange v) w) as (-> & -> & ->);
      [apply onChange_quiet | done].
  - (* a click on the send button *)
    unfold render; cbn [send_disabled].
    destruct (isLoading (app w)) eqn:Hl; [by left|].
    case_bool_decide as Hq; [by left|]. cbn [orb].
    right; left. by rewrite dispatch_submit.
  - (* the Enter key *)
    unfold render; cbn [input_disabled send_disabled].
    destruct (isLoading (app w)) eqn:Hl; [by left|].
    case_bool_decide as Hq; [by left|]. cbn [orb].
    right; left. by rewrite dispatch_submit.
  - (* a click on the microphone button *)
    unfold render; cbn [mic_button].
    destruct recognition; [|by left]. cbn [mic_disabled].
    destruct (isLoading (app w)) eqn:Hl; [by left|].
    left. destruct (dispatch_quiet (handleToggleListening true start_throws) w)
      as (-> & -> & ->); [apply handleToggleListening_quiet | done].
  - destruct recognition; [|by left].
    left. destruct (dispatch_quiet (onresult ev) w) as (-> & -> & ->);
      [apply onresult_quiet | done].
  - destruct recognition; [|by left].
    left. destruct (dispatch_quiet (onerror error) w) as (-> & -> & ->);
      [apply onerror_quiet | done].
  - destruct recognition; [|by left].
    left. destruct (dispatch_quiet onend w) as (-> & -> & ->);
      [apply onend_quiet | done].
  - (* fetch settles *)
    destruct (pending w !! i) as [[|]|] eqn:Hi; [|by left..].
    unfold continue.
    destruct (after_fetch_cases p (app w)) as [(_ & out & ->)|(_ & ->)];
      cbn [fst app pending outcome final].
    + right; right. exists i, (of_json (JString generic_failure)).
      by apply lookup_lt_Some in Hi.
    + left. by rewrite length_insert.
  - (* the body settles *)
    destruct (pending w !! i) as [[|]|] eqn:Hi; [by left| |by left].
    unfold continue.
    destruct (after_json_settles p (app w)) as (v & out & ->);
      cbn [fst app pending outcome final].
    right; right. exists i, v. by apply lookup_lt_Some in Hi.
Qed.

Lemma step_consistent (w : World) (e : event) :
  consistent w → consistent (step recognition w e).1.
Proof.
  intros [Halt Hlen].
  destruct (step_cases w e)
    as [(Hm & Hl & Hp)|[(Hl & Hq & Hs & Hp)|(i & v & Hi & Hs & Hp)]];
    unfold consistent.
  - by rewrite Hm, Hl, Hp.
  - rewrite Hs, Hp. rewrite Hl in Halt, Hlen.
    apply nil_length_inv in Hlen as ->. split; [|done].
    by apply alternating_user.
  - rewrite Hs, Hp. cbn [settled_with messages isLoading].
    destruct (isLoading (app w)); [|lia].
    split; [by apply alternating_bot|].
    rewrite length_delete; [lia|]. by apply lookup_lt_is_Some_2.
Qed.

Lemma start_consistent : consistent start.
Proof. split; [constructor | done]. Qed.

Lemma run_consistent (w : World) (es : list event) :
  consistent w → consistent (run recognition w es).1.
Proof.
  revert w. induction es as [|e es IH]; intros w Hw; [done|].
  cbn [run]. pose proof (step_consistent w e Hw) as Hw1.
  destruct (step recognition w e) as [w1 out1].
  specialize (IH w1 Hw1).
  by destruct (run recognition w1 es) as [w2 out2].
Qed.

(** X4. On every run from the initial page the conversation alternates
    between user and bot, beginning with the user, and its last Turn is an
    unanswered user Turn exactly while the page is loading. *)
Lemma conversation_alternates (es : list event) :
  let w := (run recognition start es).1 in
  alternating (isLoading (app w)) (messages (app w)).
Proof. apply (run_consistent start es start_consistent). Qed.
End Page.

(** ** The submission cycle *)

Section Cycle.
Import App.
Context (recognition : bool).

(** While the page is loading, the events up to the one that ends the
    loading add nothing to the conversation, and that one adds one Turn of
    the bot. *)
Lemma until_idle_loading (es : list event) (w : World) :
  isLoading (app w) = true →
  let w' := until_idle recognition w es in
  (isLoading (app w') = true ∧ messages (app w') = messages (app w))
  ∨ (isLoading (app w') = false
     ∧ ∃ v, messages (app w') = messages (app w) ++ [bot_turn v]).
Proof.
  revert w. induction es as [|e es IH]; intros w Hl; cbn [until_idle].
  { by left. }
  destruct (step_cases recognition w e)
    as [(Hm & Hl' & _)|[(Hl' & _)|(i & v & _ & Hs & _)]].
  - rewrite Hl', Hl, <- Hm. apply IH. congruence.
  - congruence.
  - rewrite Hs. cbn [settled_with isLoading]. rewrite Hs. right.
    split; [done | by exists v].
Qed.

Lemma step_loading_submit (w : World) :
  isLoading (app w) = true →
  step recognition w Click_send = (w, [])
  ∧ step recognition w Press_enter = (w, []).
Proof.
  intros Hl. cbn [step]. unfold render.
  cbn [input_disabled send_disabled]. by rewrite Hl.
Qed.

Lemma step_idle_submit (w : World) :
  isLoading (app w) = false →
  trim (userInput (app w)) ≠ [] →
  step recognition w Click_send =
    ({| app := submitted (trim (userInput (app w))) (app w);
        pending := pending w ++ [awaiting_fetch] |},
     [preventDefault; chat_request (trim (userInput (app w)))]).
Proof.
  intros Hl Hq. cbn [step]. unfold render. cbn [send_disabled].
  rewrite Hl, bool_decide_eq_false_2 by done. cbn [orb].
  by apply dispatch_submit.
Qed.

Lemma step_enter_is_click (w : World) :
  isLoading (app w) = false →
  step recognition w Press_enter = step recognition w Click_send.
Proof.
  intros Hl. cbn [step]. unfold render.
  cbn [input_disabled send_disabled]. by rewrite Hl.
Qed.
End Cycle.

(** ** Submitting *)

(** C1. For every input whose trimmed text is not empty,
    [handleSendMessage] appends exactly one user Turn with the trimmed
    text at once, issues one request and waits for it, and so does a
    submission on the page (by the send button or, to the same effect, by
    the Enter key); whatever happens on the page afterwards, the conversation
    is that of before plus the user Turn until the loading ends, and plus
    exactly one Turn of the bot, after the user Turn, when it ends. The
    loading ends when the network call settles, with success or failure:
    when the fetch fails or brings a response that is not ok, and
    otherwise when the read of the body settles; each of the two appends
    exactly one Turn of the bot. *)
Theorem submit_appends_user_then_bot
    (recognition : bool) (w : App.World) (es : list App.event) :
  App.isLoading (App.app w) = false →
  trim (App.userInput (App.app w)) ≠ [] →
  let q := trim (App.userInput (App.app w)) in
  let w1 := (App.step recognition w App.Click_send).1 in
  let out1 := (App.step recognition w App.Click_send).2 in
  let w2 := until_idle recognition w1 es in
  App.handleSendMessage (App.app w)
  = Result (submitted q (App.app w))
      [preventDefault; App.chat_request q] (Await App.awaiting_fetch)
  ∧ App.step recognition w App.Press_enter
    = App.step recognition w App.Click_send
  ∧ (App.messages (App.app w1) = App.messages (App.app w) ++ [user_turn q]
   ∧ App.requests out1 = [App.chat_request q]
   ∧ App.isLoading (App.app w1) = true
   ∧ App.pending w1 = App.pending w ++ [App.awaiting_fetch])
  ∧ ((App.isLoading (App.app w2) = true
      ∧ App.messages (App.app w2)
        = App.messages (App.app w) ++ [user_turn q])
     ∨ (App.isLoading (App.app w2) = false
        ∧ ∃ v, App.messages (App.app w2)
               = App.messages (App.app w) ++ [user_turn q; bot_turn v]))
  ∧ (∀ p s,
       (failed p
        ∧ ∃ out, App.handleSendMessage_after_fetch p s
                 = Result (settled_with failure_turn s) out (Return ()))
       ∨ ((∃ response, p = Fulfilled response ∧ ok response = true)
          ∧ App.handleSendMessage_after_fetch p s
            = Result s [response_json] (Await App.awaiting_json)))
  ∧ (∀ p s, ∃ v out,
       App.handleSendMessage_after_json p s
       = Result (settled_with (bot_turn v) s) out (Return ())).
Proof.
  intros Hl Hq q w1 out1 w2. subst w1 out1 w2.
  split; [by apply handleSendMessage_send|].
  split; [by apply step_enter_is_click|].
  rewrite (step_idle_submit recognition w Hl Hq). cbn [fst snd].
  split; [done|]. split; [|split].
  - pose proof (until_idle_loading recognition es
                  {| App.app := submitted q (App.app w);
                     App.pending := App.pending w ++ [App.awaiting_fetch] |}
                  eq_refl) as Hcycle.
    cbn zeta in Hcycle. fold q.
    destruct Hcycle as [(Hl2 & Hm)|(Hl2 & v & Hm)].
    + left. by rewrite Hl2, Hm.
    + right. split; [done|]. exists v. rewrite Hm.
      cbn [App.app submitted App.messages]. by rewrite <- app_assoc.
  - apply after_fetch_cases.
  - apply after_json_settles.
Qed.

Lemma submit_appends_user_then_bot_witness :
  let w := (App.step true App.start (App.Type_into_input (lit " hi "))).1 in
  let w2 := until_idle true (App.step true w App.Click_send).1
              [App.Speech_end;
               App.Fetch_settles 0 (Fulfilled {| status := 200 |});
               App.Json_settles 0
                 (Fulfilled (JObject [(lit "answer", JString (lit "ho"))]))] in
  trim (App.userInput (App.app w)) = lit "hi"
  ∧ App.isLoading (App.app w2) = false
  ∧ ∃ v, App.messages (App.app w2)
         = App.messages (App.app w) ++ [user_turn (lit "hi"); bot_turn v].
Proof.
  intros w w2.
  assert (Hl : App.isLoading (App.app w) = false) by reflexivity.
  assert (Hq : trim (App.userInput (App.app w)) ≠ [])
    by (vm_compute; discriminate).
  destruct (submit_appends_user_then_bot true w
              [App.Speech_end;
               App.Fetch_settles 0 (Fulfilled {| status := 200 |});
               App.Json_settles 0
                 (Fulfilled (JObject [(lit "answer", JString (lit "ho"))]))]
              Hl Hq) as (_ & _ & _ & [(Hl2 & _)|(Hl2 & v & Hm)] & _).
  - vm_compute in Hl2. discriminate.
  - split_and!; [reflexivity | exact Hl2 | exists v; exact Hm].
Defined.

(** [App.handleSendMessage] itself does not look at the loading flag: what
    keeps a second submission out while one is in flight is the disabled
    text input and send button of the form. *)
Lemma handleSendMessage_ignores_isLoading (s : App.State) :
  trim (App.userInput s) ≠ [] →
  App.isLoading s = true →
  App.handleSendMessage s =
    Result (submitted (trim (App.userInput s)) s)
           [preventDefault; App.chat_request (trim (App.userInput s))]
           (Await App.awaiting_fetch).
Proof. intros Hq _. by apply handleSendMessage_send. Qed.

(** C2. While the loading flag is up, an attempt to submit, by a click on
    the send button or by the Enter key, changes nothing and issues no
    request: no second user Turn, no second network call. Hence on every
    run of the page from its initial state at most one activation of
    [handleSendMessage] is suspended on the network at any time. *)
Theorem one_request_at_a_time (recognition : bool) :
  (∀ w, App.isLoading (App.app w) = true →
        App.step recognition w App.Click_send = (w, [])
        ∧ App.step recognition w App.Press_enter = (w, []))
  ∧ (∀ es, length (App.pending (App.run recognition App.start es).1) ≤ 1).
Proof.
  split.
  - apply step_loading_submit.
  - intros es.
    destruct (run_consistent recognition App.start es start_consistent)
      as [_ Hlen].
    rewrite Hlen. destruct (App.isLoading _); lia.
Qed.

Lemma one_request_at_a_time_witness :
  let w := (App.run true App.start
              [App.Type_into_input (lit "hello"); App.Click_send]).1 in
  App.isLoading (App.app w) = true
  ∧ App.pending w = [App.awaiting_fetch]
  ∧ App.step true w App.Click_send = (w, [])
  ∧ App.step true w App.Press_enter = (w, []).
Proof.
  intros w. split; [reflexivity|]. split; [reflexivity|].
  apply (proj1 (one_request_at_a_time true) w). reflexivity.
Defined.

(** C3. A submission of an input that is empty or white space only does
    nothing: [App.handleSendMessage] and [ChatComponent.handleSubmit]
    return with the state as it was and without a network call (the only
    effect is [preventDefault]), and on the page neither a click on the
    send button nor the Enter key does anything at all. *)
Theorem blank_submit_is_noop :
  (∀ s, whitespace_only (App.userInput s) →
        App.handleSendMessage s = Result s [preventDefault] (Return ()))
  ∧ (∀ engine c, whitespace_only (ChatComponent.question c) →
        ChatComponent.handleSubmit engine c
        = Result c [preventDefault] (Return ()))
  ∧ (∀ recognition w, whitespace_only (App.userInput (App.app w)) →
        App.step recognition w App.Click_send = (w, [])
        ∧ App.step recognition w App.Press_enter = (w, [])).
Proof.
  split_and!.
  - intros s Hs. by apply handleSendMessage_blank, trim_nil.
  - intros engine c Hc. apply trim_nil in Hc.
    unfold ChatComponent.handleSubmit. cbv [mbind js_bind emit gets].
    cbn [outcome final effects]. by rewrite Hc.
  - intros recognition w Hw. apply trim_nil in Hw.
    cbn [App.step]. unfold App.render.
    cbn [App.input_disabled App.send_disabled].
    rewrite Hw, bool_decide_eq_true_2 by done.
    by rewrite !orb_true_r.
Qed.

Lemma blank_submit_is_noop_witness :
  let blank := [32; 9; 160; 10]%N in
  let s := {| App.messages := []; App.userInput := blank;
              App.isLoading := false; App.isListening := false |} in
  let c := {| ChatComponent.question := blank;
              ChatComponent.answer := of_json (JString []);
              ChatComponent.isLoading := false;
              ChatComponent.error := None |} in
  whitespace_only blank
  ∧ App.handleSendMessage s = Result s [preventDefault] (Return ())
  ∧ ChatComponent.handleSubmit v8_TypeError_message c
    = Result c [preventDefault] (Return ())
  ∧ App.step true {| App.app := s; App.pending := [] |} App.Click_send
    = ({| App.app := s; App.pending := [] |}, []).
Proof.
  intros blank s c.
  assert (Hb : whitespace_only blank) by (repeat constructor).
  destruct blank_submit_is_noop as (Happ & Hchat & Hpage).
  split_and!.
  - exact Hb.
  - exact (Happ s Hb).
  - exact (Hchat v8_TypeError_message c Hb).
  - exact (proj1 (Hpage true {| App.app := s; App.pending := [] |} Hb)).
Defined.

(** ** How the call ends *)

Lemma handleSendMessage_no_throw (s : App.State) (error : exn) :
  outcome (App.handleSendMessage s) ≠ Throw error.
Proof.
  destruct (decide (trim (App.userInput s) = [])) as [Hq|Hq].
  - by rewrite handleSendMessage_blank.
  - by rewrite handleSendMessage_send.
Qed.

Lemma after_fetch_no_throw (p : settled Response) (s : App.State) (error : exn) :
  outcome (App.handleSendMessage_after_fetch p s) ≠ Throw error.
Proof.
  by destruct (after_fetch_cases p s) as [(_ & out & ->)|(_ & ->)].
Qed.

Lemma after_json_no_throw (p : settled json) (s : App.State) (error : exn) :
  outcome (App.handleSendMessage_after_json p s) ≠ Throw error.
Proof. by destruct (after_json_settles p s) as (v & out & ->). Qed.

(** C4. When a submission ends in a failure of the transport, be it that
    the fetch is rejected or that the read of the body of a response is,
    or in a response whose status is not a 2xx one, the primary chat view
    appends exactly one Turn of the bot whose text is the fixed generic
    failure message, and puts the loading flag down; so it is on the page,
    where the settlement ends the suspended activation and nothing is
    reported as uncaught. No segment of [handleSendMessage] ends with an
    exception, and every segment that ends after a settlement leaves the
    loading flag down, whatever the outcome of the call. *)
Theorem failure_gives_generic_turn :
  (∀ p s, failed p →
     let r := App.handleSendMessage_after_fetch p s in
     outcome r = Return ()
     ∧ App.messages (final r)
       = App.messages s
         ++ [{| App.text :=
                  of_json (JString
                    (lit "Sorry, something went wrong. Please try again."));
                App.sender := lit "bot" |}]
     ∧ App.isLoading (final r) = false
     ∧ App.userInput (final r) = App.userInput s
     ∧ App.isListening (final r) = App.isListening s)
  ∧ (∀ reason s,
       let r := App.handleSendMessage_after_json (Rejected reason) s in
       outcome r = Return ()
       ∧ App.messages (final r)
         = App.messages s
           ++ [{| App.text :=
                    of_json (JString
                      (lit "Sorry, something went wrong. Please try again."));
                  App.sender := lit "bot" |}]
       ∧ App.isLoading (final r) = false
       ∧ App.userInput (final r) = App.userInput s
       ∧ App.isListening (final r) = App.isListening s)
  ∧ (∀ recognition w i p,
       App.pending w !! i = Some App.awaiting_fetch → failed p →
       let w' := (App.step recognition w (App.Fetch_settles i p)).1 in
       let out := (App.step recognition w (App.Fetch_settles i p)).2 in
       App.app w' = settled_with failure_turn (App.app w)
       ∧ App.pending w' = delete i (App.pending w)
       ∧ ∀ error, uncaught error ∉ out)
  ∧ (∀ recognition w i reason,
       App.pending w !! i = Some App.awaiting_json →
       let w' :=
         (App.step recognition w (App.Json_settles i (Rejected reason))).1 in
       let out :=
         (App.step recognition w (App.Json_settles i (Rejected reason))).2 in
       App.app w' = settled_with failure_turn (App.app w)
       ∧ App.pending w' = delete i (App.pending w)
       ∧ ∀ error, uncaught error ∉ out)
  ∧ (∀ s p pj error,
       outcome (App.handleSendMessage s) ≠ Throw error
       ∧ outcome (App.handleSendMessage_after_fetch p s) ≠ Throw error
       ∧ outcome (App.handleSendMessage_after_json pj s) ≠ Throw error)
  ∧ (∀ s p pj,
       (outcome (App.handleSendMessage_after_fetch p s) = Return () →
        App.isLoading (final (App.handleSendMessage_after_fetch p s)) = false)
       ∧ outcome (App.handleSendMessage_after_json pj s) = Return ()
       ∧ App.isLoading (final (App.handleSendMessage_after_json pj s))
         = false).
Proof.
  assert (Hfetch : ∀ p s, failed p →
    ∃ out, App.handleSendMessage_after_fetch p s
           = Result (settled_with failure_turn s) out (Return ())
           ∧ ∀ error, uncaught error ∉ out).
  { intros p s Hp. destruct p as [response|reason].
    - eexists. split; [by apply after_fetch_not_ok, ok_false|].
      intros error Hin. apply list_elem_of_singleton in Hin. discriminate.
    - eexists. split; [apply after_fetch_rejected|].
      intros error Hin. apply list_elem_of_singleton in Hin. discriminate. }
  split; [|split; [|split; [|split; [|split]]]].
  - intros p s Hp r. subst r.
    by destruct (Hfetch p s Hp) as (out & -> & _).
  - intros reason s r. subst r. by rewrite after_json_rejected.
  - intros recognition w i p Hi Hp w' out. subst w' out.
    cbn [App.step]. rewrite Hi. unfold App.continue, App.reported.
    destruct (Hfetch p (App.app w) Hp) as (out & -> & Hout).
    cbn [fst snd final effects outcome]. by rewrite app_nil_r.
  - intros recognition w i reason Hi w' out. subst w' out.
    cbn [App.step]. rewrite Hi. unfold App.continue, App.reported.
    rewrite after_json_rejected. cbn [fst snd final effects outcome].
    split_and!; [done..|].
    intros error Hin. apply list_elem_of_singleton in Hin. discriminate.
  - intros s p pj error. split_and!.
    + apply handleSendMessage_no_throw.
    + apply after_fetch_no_throw.
    + apply after_json_no_throw.
  - intros s p pj. split_and!.
    + by destruct (after_fetch_cases p s) as [(_ & out & ->)|(_ & ->)].
    + by destruct (after_json_settles pj s) as (v & out & ->).
    + by destruct (after_json_settles pj s) as (v & out & ->).
Qed.

Lemma failure_gives_generic_turn_witness :
  let transport := Rejected (HostError (lit "Failed to fetch")) in
  let server := Fulfilled {| status := 500 |} in
  let reading :=
    {| App.app := submitted (lit "hi") App.initial;
       App.pending := [App.awaiting_json] |} in
  failed transport ∧ failed server
  ∧ App.messages (final (App.handleSendMessage_after_fetch transport
                           (submitted (lit "hi") App.initial)))
    = [user_turn (lit "hi"); failure_turn]
  ∧ App.messages (final (App.handleSendMessage_after_fetch server
                           (submitted (lit "hi") App.initial)))
    = [user_turn (lit "hi"); failure_turn]
  ∧ (App.step true reading
       (App.Json_settles 0 (Rejected (HostError (lit "network error"))))).1
    = {| App.app := settled_with failure_turn
                      (submitted (lit "hi") App.initial);
         App.pending := [] |}.
Proof.
  intros transport server reading.
  assert (Ht : failed transport) by exact I.
  assert (Hs : failed server) by (right; reflexivity).
  assert (Hr : App.pending reading !! 0 = Some App.awaiting_json)
    by reflexivity.
  destruct failure_gives_generic_turn as (Hfail & _ & _ & Hjson & _).
  destruct (Hjson true reading 0 (HostError (lit "network error")) Hr)
    as (Happ & Hpending & _).
  split_and!.
  - exact Ht.
  - exact Hs.
  - exact (proj1 (proj2 (Hfail transport _ Ht))).
  - exact (proj1 (proj2 (Hfail server _ Hs))).
  - destruct (App.step true reading _) as [w' out'].
    cbn [fst] in *. destruct w' as [s' p']. cbn [App.app App.pending] in *.
    by rewrite Happ, Hpending.
Defined.

(** C5. On a 2xx response the body is read, and when it is a JSON object
    whose [answer] is a string, the Turn of the bot carries exactly that
    string: nothing is stripped, cut or escaped. For the body
    [{"answer": "Paris is the capital of France."}] the text of the Turn
    is [Paris is the capital of France.]. *)
Theorem answer_shown_verbatim
    (response : Response) (props : list (jsstring * json))
    (a : jsstring) (s : App.State) :
  (200 ≤ status response ≤ 299)%N →
  lookup_prop (lit "answer") props = Some (JString a) →
  App.handleSendMessage_after_fetch (Fulfilled response) s
  = Result s [response_json] (Await App.awaiting_json)
  ∧ App.handleSendMessage_after_json (Fulfilled (JObject props)) s
    = Result {| App.messages :=
                  App.messages s
                  ++ [{| App.text := of_json (JString a);
                         App.sender := lit "bot" |}];
                App.userInput := App.userInput s;
                App.isLoading := false;
                App.isListening := App.isListening s |}
             [] (Return ()).
Proof.
  intros Hstatus Ha. split.
  - by apply after_fetch_ok, ok_true.
  - rewrite after_json_value by done.
    unfold member. by rewrite Ha.
Qed.

Lemma answer_shown_verbatim_witness :
  let s := submitted (lit "What is the capital of France?") App.initial in
  let body :=
    JObject [(lit "answer", JString (lit "Paris is the capital of France."))] in
  App.messages
    (final (App.handleSendMessage_after_json (Fulfilled body) s))
  = [user_turn (lit "What is the capital of France?");
     {| App.text := of_json (JString (lit "Paris is the capital of France."));
        App.sender := lit "bot" |}].
Proof.
  intros s body.
  assert (Hstatus : (200 ≤ status {| status := 200 |} ≤ 299)%N)
    by (simpl; lia).
  assert (Ha : lookup_prop (lit "answer")
                 [(lit "answer",
                   JString (lit "Paris is the capital of France."))]
               = Some (JString (lit "Paris is the capital of France.")))
    by reflexivity.
  destruct (answer_shown_verbatim {| status := 200 |} _ _ s Hstatus Ha)
    as [_ Hjson].
  subst body. rewrite Hjson. reflexivity.
Defined.

(** The whole exchange on the page, from the typed question to the answer. *)
Example paris :
  (App.run true App.start
     [App.Type_into_input (lit "What is the capital of France?");
      App.Click_send;
      App.Fetch_settles 0 (Fulfilled {| status := 200 |});
      App.Json_settles 0
        (Fulfilled
           (JObject [(lit "answer",
                      JString (lit "Paris is the capital of France."))]))])
  = ({| App.app :=
          {| App.messages :=
               [user_turn (lit "What is the capital of France?");
                bot_turn
                  (of_json (JString (lit "Paris is the capital of France.")))];
             App.userInput := [];
             App.isLoading := false;
             App.isListening := false |};
        App.pending := [] |},
     [preventDefault;
      App.chat_request (lit "What is the capital of France?");
      response_json]).
Proof. vm_compute. reflexivity. Qed.

(** ** The conversation over time *)

Lemma step_appends (recognition : bool) (w : App.World) (e : App.event) :
  ∃ new,
    App.messages (App.app (App.step recognition w e).1)
    = App.messages (App.app w) ++ new
    ∧ length new ≤ 1
    ∧ Forall valid_sender new.
Proof.
  destruct (step_cases recognition w e)
    as [(Hm & _)|[(_ & _ & Hs & _)|(i & v & _ & Hs & _)]].
  - exists []. rewrite Hm, app_nil_r. split_and!; [done | simpl; lia | done].
  - exists [user_turn (trim (App.userInput (App.app w)))]. rewrite Hs.
    split_and!; [done..|]. repeat constructor.
  - exists [bot_turn v]. rewrite Hs.
    split_and!; [done..|]. constructor; [by right | done].
Qed.

Lemma run_appends (recognition : bool) (es : list App.event) (w : App.World) :
  ∃ new,
    App.messages (App.app (App.run recognition w es).1)
    = App.messages (App.app w) ++ new
    ∧ Forall valid_sender new.
Proof.
  revert w. induction es as [|e es IH]; intros w.
  { exists []. by rewrite app_nil_r. }
  cbn [App.run].
  destruct (step_appends recognition w e) as (new1 & Hm1 & _ & Hv1).
  destruct (App.step recognition w e) as [w1 out1].
  destruct (IH w1) as (new2 & Hm2 & Hv2).
  destruct (App.run recognition w1 es) as [w2 out2].
  cbn [fst] in *. exists (new1 ++ new2).
  rewrite Hm2, Hm1, app_assoc. split; [done|]. by apply Forall_app.
Qed.

(** C6. The conversation only grows at its end. An event of the page
    leaves it as it is or appends one Turn, whose sender is [user] or
    [bot]; over any sequence of events from any state of the page the
    conversation of before is a prefix of the conversation of after, so
    that no Turn is changed, removed or moved; and every Turn of every
    conversation the page reaches from its initial state has sender [user]
    or [bot]. *)
Theorem conversation_append_only (recognition : bool) :
  (∀ w e, ∃ new,
     App.messages (App.app (App.step recognition w e).1)
     = App.messages (App.app w) ++ new
     ∧ length new ≤ 1
     ∧ Forall (λ t, App.sender t = lit "user" ∨ App.sender t = lit "bot") new)
  ∧ (∀ w es,
       App.messages (App.app w)
       `prefix_of` App.messages (App.app (App.run recognition w es).1))
  ∧ (∀ es,
       Forall (λ t, App.sender t = lit "user" ∨ App.sender t = lit "bot")
         (App.messages (App.app (App.run recognition App.start es).1))).
Proof.
  split_and!.
  - apply step_appends.
  - intros w es. destruct (run_appends recognition es w) as (new & -> & _).
    by apply prefix_app_r.
  - intros es.
    by destruct (run_appends recognition es App.start) as (new & -> & Hv).
Qed.

(** ** The speech bridge *)

(** C7. Without speech recognition in the host, the microphone toggle
    shows the notice and does nothing else: the state is as it was, the
    other effects are none, and the handler returns. (What a call of
    [recognition.start()] would do plays no part, as none is made.) *)
Theorem toggle_unsupported_only_alerts
    (start_throws : option exn) (s : App.State) :
  App.handleToggleListening false start_throws s =
    Result s
      [alert (lit "Sorry, your browser doesn't support voice recognition.")]
      (Return ()).
Proof. apply handleToggleListening_unsupported. Qed.

(** Without speech recognition the microphone button is not rendered, and
    a click on it does not happen. *)
Lemma mic_button_absent (w : App.World) (start_throws : option exn) :
  App.mic_button (App.render false (App.app w)) = None
  ∧ App.step false w (App.Click_mic start_throws) = (w, []).
Proof. done. Qed.

(** C8. When the speech bridge delivers a result, the input text becomes
    the transcript of the first alternative of the first result, the
    listening flag goes down, and the conversation and the loading flag
    stay as they were. *)
Theorem transcript_replaces_input
    (ev : App.SpeechEvent) (result0 : list App.Alternative)
    (best : App.Alternative) (s : App.State) :
  App.results ev !! 0 = Some result0 →
  result0 !! 0 = Some best →
  App.onresult ev s =
    Result {| App.messages := App.messages s;
              App.userInput := App.transcript best;
              App.isLoading := App.isLoading s;
              App.isListening := false |}
           [] (Return ()).
Proof.
  intros Hr Hb. unfold App.onresult. by rewrite Hr, Hb.
Qed.

Lemma transcript_replaces_input_witness :
  let ev := {| App.results := [[{| App.transcript := lit "what is rag" |}]] |} in
  let s := {| App.messages := []; App.userInput := lit "old";
              App.isLoading := false; App.isListening := true |} in
  App.onresult ev s =
    Result {| App.messages := []; App.userInput := lit "what is rag";
              App.isLoading := false; App.isListening := false |}
           [] (Return ()).
Proof.
  intros ev s.
  apply (transcript_replaces_input ev
           [{| App.transcript := lit "what is rag" |}]
           {| App.transcript := lit "what is rag" |} s);
    reflexivity.
Defined.

(** ** The error branch of [ChatComponent.handleSubmit] *)

Section ErrorBranch.
Import ChatComponent.
Context (engine : jsstring → jsstring) (cannot_convert : jsstring).

Lemma js_bind_ret {A B : Type} (a : A) (f : A → js State task B)
    (s : State) :
  (mret a ≫= f) s = f a s.
Proof.
  cbv [mbind js_bind mret js_ret]. cbn [outcome final effects app].
  by destruct (f a s).
Qed.

(** The exception that [throw new Error(detail || fallback)] ends with:
    the Error with the fallback for a falsy detail, the Error with the
    detail as a string for a truthy one, and the TypeError of the engine
    when the detail does not convert. *)
Lemma throw_new_Error_or_else (detail : value) (fallback : jsstring)
    (s : State) :
  (error ← new_Error cannot_convert
             (or_else detail (of_json (JString fallback)));
   mthrow error) s
  = Result s []
      (Throw (if ToBoolean detail then
                match ToString detail with
                | Some m => Error m
                | None => TypeError_convert cannot_convert
                end
              else Error fallback) : completion task ()).
Proof.
  unfold or_else. destruct (ToBoolean detail) eqn:Hd; [|done].
  destruct detail as [|j]; [done|]. cbn [new_Error ToString].
  by destruct (ToString_json j).
Qed.

Lemma after_fetch_not_ok_reads_body (response : Response) (s : State) :
  ok response = false →
  handleSubmit_after_fetch engine (Fulfilled response) s
  = Result s [response_json] (Await (awaiting_error_json response)).
Proof.
  intros Hok. unfold handleSubmit_after_fetch, try_catch_finally.
  cbv [mbind js_bind resume mret js_ret]. cbn [outcome final effects].
  rewrite Hok. by destruct s.
Qed.

Lemma after_error_json_value (response : Response) (j : json) (s : State) :
  j ≠ JNull →
  let thrown :=
    if ToBoolean (member j (lit "detail")) then
      match ToString (member j (lit "detail")) with
      | Some m => Error m
      | None => TypeError_convert cannot_convert
      end
    else Error (http_status_message response) in
  handleSubmit_after_error_json engine cannot_convert response (Fulfilled j) s
  = Result {| question := question s;
              answer := answer s;
              isLoading := false;
              error := Some (message engine thrown) |}
           [console_error (lit "Failed to fetch chat response:")
              (log_exn thrown)]
           (Return ()).
Proof.
  intros Hj thrown.
  pose proof (throw_new_Error_or_else (member j (lit "detail"))
                (http_status_message response) s) as Hthrow.
  fold thrown in Hthrow. clearbody thrown.
  unfold handleSubmit_after_error_json.
  fold (http_status_message response).
  match goal with
  | |- try_catch_finally ?block _ _ _ = _ =>
      assert (Hblock : block s
                       = Result s [] (Throw thrown : completion task ()))
  end.
  { etrans; [apply (js_bind_ret j)|]. cbn beta.
    destruct j; try done; (etrans; [apply js_bind_ret|]); exact Hthrow. }
  unfold try_catch_finally. rewrite Hblock. done.
Qed.

(** An error body that is not JSON, or is [null]: what is shown is the
    message of the exception that the read of the body, or of its
    [detail], ends with. *)
Lemma after_error_json_unreadable (response : Response) (s : State) :
  (∀ reason,
     error (final (handleSubmit_after_error_json engine cannot_convert
                     response (Rejected reason) s))
     = Some (message engine reason))
  ∧ error (final (handleSubmit_after_error_json engine cannot_convert
                    response (Fulfilled JNull) s))
    = Some (engine (lit "detail")).
Proof. done. Qed.

Lemma http_status_message_not_empty (response : Response) :
  http_status_message response ≠ [].
Proof.
  unfold http_status_message.
  destruct (lit "HTTP error! status: ") eqn:Hlit; [|done].
  vm_compute in Hlit. discriminate.
Qed.
End ErrorBranch.

(** The claim C9 fails on an error body whose [detail] is not a string,
    such as the one a validation failure of the backend carries: the body
    holds no detail string, and yet the secondary variant shows the detail
    converted to a string, not the HTTP-status message. *)
Lemma detail_array_is_stringified :
  let response := {| status := 422 |} in
  let body :=
    JObject
      [(lit "detail",
        JArray
          [JObject
             [(lit "loc", JArray [JString (lit "body");
                                  JString (lit "question")]);
              (lit "msg", JString (lit "field required"));
              (lit "type", JString (lit "value_error.missing"))]])] in
  let r := ChatComponent.handleSubmit_after_error_json v8_TypeError_message
             v8_cannot_convert response (Fulfilled body)
             ChatComponent.initial in
  not_2xx response
  ∧ detail_string (Fulfilled body) = None
  ∧ ChatComponent.error (final r) = Some (lit "[object Object]")
  ∧ ChatComponent.error_line (final r) = Some (lit "[object Object]")
  ∧ ChatComponent.error (final r) ≠ Some (http_status_message response).
Proof.
  intros response body r. split_and!.
  - right. reflexivity.
  - reflexivity.
  - reflexivity.
  - reflexivity.
  - vm_compute. discriminate.
Qed.

(** C9, amended. On a response that is not a 2xx one the primary chat
    view does not read the body: it appends the Turn with the fixed
    generic message, and the message of the server appears nowhere. The
    secondary variant reads the body, and when the body is JSON other
    than [null] its error line shows:
    - the [detail] string of the body as it is, when the body has one
      that is not empty;
    - the message [HTTP error! status: <status>], when the body has no
      [detail] or a falsy one ([null], [false], zero, the empty string);
    - any other [detail] converted to a string, and nothing when that
      string is empty (as for an empty array);
    - the message of the TypeError of the engine, when the [detail] does
      not convert to a string (an object with a member [toString], or an
      array that holds one). *)
Theorem error_display_of_the_two_variants (response : Response) :
  not_2xx response →
  (∀ s, App.handleSendMessage_after_fetch (Fulfilled response) s
        = Result (settled_with failure_turn s)
            [console_error (lit "Error sending message:")
               (log_exn (Error (lit "HTTP error! Status: "
                                  ++ decimal (status response))))]
            (Return ()))
  ∧ (∀ engine c,
       ChatComponent.handleSubmit_after_fetch engine (Fulfilled response) c
       = Result c [response_json]
           (Await (ChatComponent.awaiting_error_json response)))
  ∧ (∀ engine cannot_convert props d c,
       lookup_prop (lit "detail") props = Some (JString d) → d ≠ [] →
       let r := ChatComponent.handleSubmit_after_error_json engine
                  cannot_convert response (Fulfilled (JObject props)) c in
       ChatComponent.error (final r) = Some d
       ∧ ChatComponent.error_line (final r) = Some d)
  ∧ (∀ engine cannot_convert j c,
       j ≠ JNull →
       ToBoolean (member j (lit "detail")) = false →
       let r := ChatComponent.handleSubmit_after_error_json engine
                  cannot_convert response (Fulfilled j) c in
       ChatComponent.error_line (final r)
       = Some (lit "HTTP error! status: " ++ decimal (status response)))
  ∧ (∀ engine cannot_convert j m c,
       j ≠ JNull →
       ToBoolean (member j (lit "detail")) = true →
       ToString (member j (lit "detail")) = Some m →
       let r := ChatComponent.handleSubmit_after_error_json engine
                  cannot_convert response (Fulfilled j) c in
       ChatComponent.error (final r) = Some m
       ∧ ChatComponent.error_line (final r)
         = if bool_decide (m = []) then None else Some m)
  ∧ (∀ engine cannot_convert j c,
       j ≠ JNull →
       ToBoolean (member j (lit "detail")) = true →
       ToString (member j (lit "detail")) = None →
       let r := ChatComponent.handleSubmit_after_error_json engine
                  cannot_convert response (Fulfilled j) c in
       ChatComponent.error (final r) = Some cannot_convert
       ∧ ChatComponent.error_line (final r)
         = if bool_decide (cannot_convert = []) then None
           else Some cannot_convert).
Proof.
  intros Hstatus. apply ok_false in Hstatus.
  split; [|split; [|split; [|split; [|split]]]].
  - intros s. by apply after_fetch_not_ok.
  - intros engine c. by apply after_fetch_not_ok_reads_body.
  - intros engine cannot_convert props d c Hd Hne r. subst r.
    rewrite after_error_json_value by done.
    unfold member. rewrite Hd. cbn [ToBoolean ToString ToString_json].
    rewrite bool_decide_eq_false_2 by done.
    cbn [negb final ChatComponent.error ChatComponent.message].
    split; [done|].
    unfold ChatComponent.error_line. cbn [ChatComponent.error].
    by rewrite bool_decide_eq_false_2.
  - intros engine cannot_convert j c Hj Hfalsy r. subst r.
    rewrite after_error_json_value by done. rewrite Hfalsy.
    cbn [final ChatComponent.message].
    unfold ChatComponent.error_line. cbn [ChatComponent.error].
    rewrite bool_decide_eq_false_2
      by apply http_status_message_not_empty.
    done.
  - intros engine cannot_convert j m c Hj Htruthy Hm r. subst r.
    rewrite after_error_json_value by done. by rewrite Htruthy, Hm.
  - intros engine cannot_convert j c Hj Htruthy Hm r. subst r.
    rewrite after_error_json_value by done. by rewrite Htruthy, Hm.
Qed.

Lemma error_display_of_the_two_variants_witness :
  let response := {| status := 404 |} in
  let body := JObject [(lit "detail", JString (lit "Not Found"))] in
  let hidden :=
    JObject [(lit "detail",
              JObject [(lit "toString", JString (lit "x"))])] in
  let run j :=
    final (ChatComponent.handleSubmit_after_error_json
             v8_TypeError_message v8_cannot_convert response (Fulfilled j)
             ChatComponent.initial) in
  not_2xx response
  ∧ App.messages
      (final (App.handleSendMessage_after_fetch (Fulfilled response)
                (submitted (lit "hi") App.initial)))
    = [user_turn (lit "hi"); failure_turn]
  ∧ ChatComponent.error_line (run body) = Some (lit "Not Found")
  ∧ ChatComponent.error_line (run (JObject []))
    = Some (lit "HTTP error! status: 404")
  ∧ ChatComponent.error_line (run (JObject [(lit "detail", JArray [])]))
    = None
  ∧ ChatComponent.error_line (run hidden)
    = Some (lit "Cannot convert object to primitive value").
Proof.
  intros response body hidden run.
  assert (Hstatus : not_2xx response) by (right; reflexivity).
  destruct (error_display_of_the_two_variants response Hstatus)
    as (Hprimary & _ & Hdetail & Hfalsy & Htruthy & Hthrows).
  split_and!.
  - exact Hstatus.
  - rewrite Hprimary. reflexivity.
  - apply (Hdetail v8_TypeError_message v8_cannot_convert _
             (lit "Not Found") ChatComponent.initial);
      [reflexivity | discriminate].
  - apply (Hfalsy v8_TypeError_message v8_cannot_convert (JObject [])
             ChatComponent.initial); [discriminate | reflexivity].
  - apply (Htruthy v8_TypeError_message v8_cannot_convert
             (JObject [(lit "detail", JArray [])]) [] ChatComponent.initial);
      [discriminate | reflexivity | reflexivity].
  - apply (Hthrows v8_TypeError_message v8_cannot_convert hidden
             ChatComponent.initial);
      [discriminate | reflexivity | reflexivity].
Defined.

(** ** A body without an answer *)

(** The claim C10 fails on the body [null]: it has no [answer], and yet
    the read of [answer] throws, the failure branch runs, and the Turn of
    the bot carries the generic failure message, not [undefined]. *)
Lemma null_body_takes_failure_branch :
  let s := submitted (lit "hi") App.initial in
  let r := App.handleSendMessage_after_json (Fulfilled JNull) s in
  lacks (lit "answer") JNull
  ∧ effects r = [console_error (lit "Error sending message:")
                   (log_exn (TypeError_read (lit "answer")))]
  ∧ App.messages (final r) = [user_turn (lit "hi"); failure_turn]
  ∧ App.text failure_turn ≠ undefined.
Proof. intros s r. split_and!; done. Qed.

(** C10, amended. On a 2xx response the body is read without any check of
    its shape, and when it is JSON other than [null] and has no [answer],
    the primary chat view appends a Turn of the bot whose text is
    [undefined]: nothing is thrown, nothing is logged, and the failure
    branch does not run. *)
Theorem missing_answer_gives_undefined
    (response : Response) (j : json) (s : App.State) :
  (200 ≤ status response ≤ 299)%N →
  j ≠ JNull →
  lacks (lit "answer") j →
  App.handleSendMessage_after_fetch (Fulfilled response) s
  = Result s [response_json] (Await App.awaiting_json)
  ∧ App.handleSendMessage_after_json (Fulfilled j) s
    = Result {| App.messages :=
                  App.messages s
                  ++ [{| App.text := undefined; App.sender := lit "bot" |}];
                App.userInput := App.userInput s;
                App.isLoading := false;
                App.isListening := App.isListening s |}
             [] (Return ()).
Proof.
  intros Hstatus Hj Hlacks. split.
  - by apply after_fetch_ok, ok_true.
  - rewrite after_json_value by done.
    destruct j; try done. unfold lacks in Hlacks. unfold member.
    by rewrite Hlacks.
Qed.

Lemma missing_answer_gives_undefined_witness :
  let s := submitted (lit "hi") App.initial in
  let body := JObject [(lit "result", JString (lit "ho"))] in
  App.messages (final (App.handleSendMessage_after_json (Fulfilled body) s))
  = [user_turn (lit "hi"); bot_turn undefined].
Proof.
  intros s body.
  assert (Hstatus : (200 ≤ status {| status := 200 |} ≤ 299)%N)
    by (simpl; lia).
  assert (Hj : body ≠ JNull) by discriminate.
  assert (Hlacks : lacks (lit "answer") body) by reflexivity.
  destruct (missing_answer_gives_undefined {| status := 200 |} body s
              Hstatus Hj Hlacks) as [_ Hjson].
  rewrite Hjson. reflexivity.
Defined.

(** * Further properties *)

(** ** What [trim] keeps and what it removes *)

Lemma trimStart_decompose (s : jsstring) :
  ∃ l, s = l ++ trimStart s ∧ whitespace_only l.
Proof.
  induction s as [|c s (l & Hs & Hl)]; simpl.
  { exists []. split; [done | constructor]. }
  destruct (isWhiteSpace c) eqn:Hc.
  - exists (c :: l). split; [by rewrite Hs at 1 | by constructor].
  - exists []. split; [done | constructor].
Qed.

Lemma trimStart_app_solid (l : jsstring) (c : N) (r : jsstring) :
  isWhiteSpace c = false →
  trimStart (l ++ c :: r) = trimStart l ++ c :: r.
Proof.
  intros Hc. induction l as [|d l IH]; simpl.
  - by rewrite Hc.
  - by destruct (isWhiteSpace d).
Qed.

Lemma trimEnd_decompose (s : jsstring) :
  ∃ r, s = trimEnd s ++ r ∧ whitespace_only r.
Proof.
  unfold trimEnd.
  destruct (trimStart_decompose (reverse s)) as (l & Hs & Hl).
  exists (reverse l). split; [|by apply Forall_reverse].
  by rewrite <- reverse_app, <- Hs, reverse_involutive.
Qed.

Lemma trim_decompose (s : jsstring) :
  ∃ l r, s = l ++ trim s ++ r ∧ whitespace_only l ∧ whitespace_only r.
Proof.
  destruct (trimStart_decompose s) as (l & Hs & Hl).
  destruct (trimEnd_decompose (trimStart s)) as (r & Ht & Hr).
  exists l, r. unfold trim. by rewrite <- Ht.
Qed.

Lemma trimEnd_solid_head (c : N) (t : jsstring) :
  isWhiteSpace c = false →
  ∃ t', trimEnd (c :: t) = c :: t'.
Proof.
  intros Hc. unfold trimEnd.
  rewrite reverse_cons, trimStart_app_solid by done.
  rewrite reverse_app. by eexists.
Qed.

Lemma trim_trimmed (s : jsstring) :
  trim s ≠ [] → trimmed (trim s).
Proof.
  intros Hne. split; [done|]. unfold trim in *. split.
  - destruct (trimStart s) as [|c t] eqn:Hs; [done|].
    pose proof (trimStart_head _ _ _ Hs) as Hc.
    destruct (trimEnd_solid_head c t Hc) as (t' & ->).
    by intros d [= <-].
  - unfold trimEnd in *. intros c. rewrite last_reverse.
    destruct (trimStart (reverse (trimStart s))) as [|d u] eqn:Hu; [done|].
    intros [= <-]. by apply trimStart_head in Hu.
Qed.

Lemma trimStart_fixed (q : jsstring) :
  (∀ c, head q = Some c → isWhiteSpace c = false) → trimStart q = q.
Proof.
  destruct q as [|c q]; [done|]. intros Hc. simpl.
  by rewrite (Hc c).
Qed.

Lemma trim_fixed (q : jsstring) :
  trimmed q → trim q = q.
Proof.
  intros (_ & Hhead & Hlast). unfold trim, trimEnd.
  rewrite (trimStart_fixed q Hhead), trimStart_fixed.
  - apply reverse_involutive.
  - intros c. rewrite head_reverse. apply Hlast.
Qed.

(** ** Each event of the page of [App] *)

Section PageEvents.
Import App.
Context (recognition : bool).

Lemma with_app_same (w : World) : with_app (app w) w = w.
Proof. by destruct w. Qed.

Lemma dispatch_return (h : handler) (w : World) (s' : State)
    (out : list effect) :
  h (app w) = Result s' out (Return ()) →
  dispatch h w = (with_app s' w, out).
Proof.
  intros Hh. unfold dispatch, reported, with_app. rewrite Hh.
  cbn [final outcome effects]. by rewrite !app_nil_r.
Qed.

Lemma dispatch_throw (h : handler) (w : World) (s' : State)
    (out : list effect) (error : exn) :
  h (app w) = Result s' out (Throw error) →
  dispatch h w = (with_app s' w, out ++ [uncaught error]).
Proof.
  intros Hh. unfold dispatch, reported, with_app. rewrite Hh.
  cbn [final outcome effects]. by rewrite !app_nil_r.
Qed.

Lemma onresult_heard (ev : SpeechEvent) (alt : Alternative) (s : State) :
  best ev = Some alt →
  onresult ev s
  = Result (with_listening false (with_input (transcript alt) s)) []
      (Return ()).
Proof.
  unfold best, onresult. destruct (results ev !! 0) as [r0|]; [|done].
  simpl. by intros ->.
Qed.

Lemma onresult_malformed (ev : SpeechEvent) (s : State) :
  best ev = None →
  ∃ prop, onresult ev s = Result s [] (Throw (TypeError_read prop)).
Proof.
  unfold best, onresult. destruct (results ev !! 0) as [r0|]; simpl.
  - intros ->. by eexists.
  - by eexists.
Qed.

Lemma step_type (w : World) (v : jsstring) :
  step recognition w (Type_into_input v)
  = if isLoading (app w) then (w, [])
    else (with_app (with_input v (app w)) w, []).
Proof.
  cbn [step]. unfold render. cbn [input_disabled].
  destruct (isLoading (app w)); [done|]. by apply dispatch_return.
Qed.

Lemma step_submit (w : World) (e : event) :
  e = Click_send ∨ e = Press_enter →
  step recognition w e
  = if send_disabled (render recognition (app w)) then (w, [])
    else ({| app := submitted (trim (userInput (app w))) (app w);
             pending := pending w ++ [awaiting_fetch] |},
          [preventDefault; chat_request (trim (userInput (app w)))]).
Proof.
  intros He. unfold render. cbn [send_disabled].
  destruct (isLoading (app w)) eqn:Hl.
  - destruct (step_loading_submit recognition w Hl) as [Hc He'].
    by destruct He as [-> | ->].
  - cbn [orb]. case_bool_decide as Hq.
    + destruct He as [-> | ->]; cbn [step]; unfold render;
        cbn [input_disabled send_disabled];
        by rewrite Hl, bool_decide_eq_true_2.
    + destruct He as [-> | ->].
      * by rewrite step_idle_submit.
      * by rewrite step_enter_is_click, step_idle_submit.
Qed.

Lemma step_mic (w : World) (start_throws : option exn) :
  step recognition w (Click_mic start_throws)
  = if recognition && negb (isLoading (app w)) then
      if isListening (app w) then
        (with_app (with_listening false (app w)) w, [recognition_stop])
      else
        match start_throws with
        | None =>
            (with_app (with_listening true (app w)) w, [recognition_start])
        | Some error => (w, [recognition_start; uncaught error])
        end
    else (w, []).
Proof.
  cbn [step]. unfold render. cbn [mic_button].
  destruct recognition; [|done]. cbn [mic_disabled andb].
  destruct (isLoading (app w)); [done|]. cbn [negb].
  destruct (isListening (app w)) eqn:Hl.
  - by apply dispatch_return, handleToggleListening_stop.
  - destruct start_throws as [error|].
    + rewrite (dispatch_throw _ _ _ _ _
                 (handleToggleListening_rejected error (app w) Hl)).
      by rewrite with_app_same.
    + rewrite (dispatch_return _ _ _ _ (handleToggleListening_accepted (app w))).
      by rewrite Hl.
Qed.

Lemma step_speech_result (w : World) (ev : SpeechEvent) :
  match best ev with
  | Some alt =>
      step recognition w (Speech_result ev)
      = if recognition then
          (with_app (with_listening false
                       (with_input (transcript alt) (app w))) w, [])
        else (w, [])
  | None =>
      ∃ prop,
        step recognition w (Speech_result ev)
        = if recognition then (w, [uncaught (TypeError_read prop)])
          else (w, [])
  end.
Proof.
  cbn [step]. destruct (best ev) as [alt|] eqn:Hb.
  - destruct recognition; [|done].
    by apply dispatch_return, onresult_heard.
  - destruct (onresult_malformed ev (app w) Hb) as (prop & Hr).
    exists prop. destruct recognition; [|done].
    by rewrite (dispatch_throw _ _ _ _ _ Hr), with_app_same.
Qed.

Lemma step_speech_error (w : World) (error : jsstring) :
  step recognition w (Speech_error error)
  = if recognition then
      (with_app (with_listening false (app w)) w,
       [console_error (lit "Speech recognition error:") (log_string error)])
    else (w, []).
Proof.
  cbn [step]. destruct recognition; [|done]. by apply dispatch_return.
Qed.

Lemma step_speech_end (w : World) :
  step recognition w Speech_end
  = if recognition then (with_app (with_listening false (app w)) w, [])
    else (w, []).
Proof.
  cbn [step]. destruct recognition; [|done]. by apply dispatch_return.
Qed.

Lemma step_fetch_settles (w : World) (i : nat) (p : settled Response) :
  match pending w !! i with
  | Some awaiting_fetch =>
      (failed p
       ∧ ∃ error,
           step recognition w (Fetch_settles i p)
           = ({| app := settled_with failure_turn (app w);
                 pending := delete i (pending w) |},
              [console_error (lit "Error sending message:")
                 (log_exn error)]))
      ∨ ((∃ response, p = Fulfilled response ∧ ok response = true)
         ∧ step recognition w (Fetch_settles i p)
           = ({| app := app w;
                 pending := <[i := awaiting_json]> (pending w) |},
              [response_json]))
  | _ => step recognition w (Fetch_settles i p) = (w, [])
  end.
Proof.
  cbn [step]. destruct (pending w !! i) as [[|]|]; [|done..].
  unfold continue, reported. destruct p as [response|reason].
  - destruct (ok response) eqn:Hok.
    + right. split; [by eexists|]. by rewrite after_fetch_ok.
    + left. split; [by apply ok_false|]. eexists.
      by rewrite after_fetch_not_ok.
  - left. split; [done|]. eexists. by rewrite after_fetch_rejected.
Qed.

Lemma step_json_settles (w : World) (i : nat) (p : settled json) :
  match pending w !! i with
  | Some awaiting_json =>
      (∃ j, p = Fulfilled j ∧ j ≠ JNull
            ∧ step recognition w (Json_settles i p)
              = ({| app := settled_with (bot_turn (member j (lit "answer")))
                             (app w);
                    pending := delete i (pending w) |}, []))
      ∨ ((p = Fulfilled JNull ∨ ∃ reason, p = Rejected reason)
         ∧ ∃ error,
             step recognition w (Json_settles i p)
             = ({| app := settled_with failure_turn (app w);
                   pending := delete i (pending w) |},
                [console_error (lit "Error sending message:")
                   (log_exn error)]))
  | _ => step recognition w (Json_settles i p) = (w, [])
  end.
Proof.
  cbn [step]. destruct (pending w !! i) as [[|]|]; [done| |done].
  unfold continue, reported. destruct p as [j|reason].
  - destruct j;
      [right; split; [by left|]; eexists; by rewrite after_json_null|..];
      (left; eexists; split_and!; [done..|]; by rewrite after_json_value).
  - right. split; [right; by eexists|]. eexists.
    by rewrite after_json_rejected.
Qed.
End PageEvents.

(** ** User Turns and requests *)

(** X1. What [handleSendMessage] puts into the user Turn and into the
    request is the input without its margins of white space: the input is
    [l ++ q ++ r] with [l] and [r] white space only, [q] is not empty and
    neither begins nor ends with white space, and both the Turn and the
    request carry [q]. White space inside the text is kept. *)
Theorem user_text_is_input_without_margins (s : App.State) :
  trim (App.userInput s) ≠ [] →
  ∃ l q r,
    App.userInput s = l ++ q ++ r
    ∧ whitespace_only l ∧ whitespace_only r ∧ trimmed q
    ∧ App.messages (final (App.handleSendMessage s))
      = App.messages s ++ [user_turn q]
    ∧ App.requests (effects (App.handleSendMessage s))
      = [App.chat_request q].
Proof.
  intros Hq. destruct (trim_decompose (App.userInput s)) as (l & r & Hs & Hl & Hr).
  exists l, (trim (App.userInput s)), r.
  rewrite handleSendMessage_send by done.
  split_and!; [done..| by apply trim_trimmed | done | done].
Qed.

Lemma user_text_is_input_without_margins_witness :
  ∃ l q r,
    lit "  what is  RAG ? " = l ++ q ++ r
    ∧ whitespace_only l ∧ whitespace_only r ∧ trimmed q
    ∧ App.messages
        (final (App.handleSendMessage
                  (with_input (lit "  what is  RAG ? ") App.initial)))
      = [user_turn q].
Proof.
  assert (Hq : trim (App.userInput
                       (with_input (lit "  what is  RAG ? ") App.initial))
               ≠ []) by (vm_compute; discriminate).
  destruct (user_text_is_input_without_margins _ Hq)
    as (l & q & r & Hs & Hl & Hr & Ht & Hm & _).
  by exists l, q, r.
Defined.

Section Requests.
Import App.
Context (recognition : bool).

Lemma step_new_turns (w : World) (e : event) :
  ∃ new,
    messages (app (step recognition w e).1) = messages (app w) ++ new
    ∧ requests (step recognition w e).2 = chat_request <$> queries new
    ∧ Forall trimmed (queries new).
Proof.
  destruct e as [v| | |start_throws|ev|error| |i p|i p].
  - exists []. rewrite step_type, app_nil_r.
    by destruct (isLoading (app w)).
  - rewrite (step_submit recognition w Click_send) by auto.
    unfold render; cbn [send_disabled].
    destruct (isLoading (app w)) eqn:Hl; cbn [orb].
    { exists []. by rewrite app_nil_r. }
    case_bool_decide as Hq.
    { exists []. by rewrite app_nil_r. }
    exists [user_turn (trim (userInput (app w)))].
    split_and!; [done..|]. repeat constructor; by apply trim_trimmed.
  - rewrite (step_submit recognition w Press_enter) by auto.
    unfold render; cbn [send_disabled].
    destruct (isLoading (app w)) eqn:Hl; cbn [orb].
    { exists []. by rewrite app_nil_r. }
    case_bool_decide as Hq.
    { exists []. by rewrite app_nil_r. }
    exists [user_turn (trim (userInput (app w)))].
    split_and!; [done..|]. repeat constructor; by apply trim_trimmed.
  - exists []. rewrite step_mic, app_nil_r.
    destruct (recognition && negb (isLoading (app w))); [|done].
    destruct (isListening (app w)); [done|]. by destruct start_throws.
  - exists []. rewrite app_nil_r.
    pose proof (step_speech_result recognition w ev) as Hstep.
    destruct (best ev) as [alt|]; [|destruct Hstep as (prop & Hstep)];
      rewrite Hstep; by destruct recognition.
  - exists []. rewrite step_speech_error, app_nil_r. by destruct recognition.
  - exists []. rewrite step_speech_end, app_nil_r. by destruct recognition.
  - pose proof (step_fetch_settles recognition w i p) as Hstep.
    destruct (pending w !! i) as [[|]|];
      [|exists []; by rewrite Hstep, app_nil_r..].
    destruct Hstep as [(_ & error & ->)|(_ & ->)].
    + by exists [failure_turn].
    + exists []. by rewrite app_nil_r.
  - pose proof (step_json_settles recognition w i p) as Hstep.
    destruct (pending w !! i) as [[|]|];
      [exists []; by rewrite Hstep, app_nil_r| |
       exists []; by rewrite Hstep, app_nil_r].
    destruct Hstep as [(j & _ & _ & ->)|(_ & error & ->)].
    + by exists [bot_turn (member j (lit "answer"))].
    + by exists [failure_turn].
Qed.

Lemma run_new_turns (es : list event) (w : World) :
  ∃ new,
    messages (app (run recognition w es).1) = messages (app w) ++ new
    ∧ requests (run recognition w es).2 = chat_request <$> queries new
    ∧ Forall trimmed (queries new).
Proof.
  revert w. induction es as [|e es IH]; intros w.
  { exists []. by rewrite app_nil_r. }
  cbn [run].
  destruct (step_new_turns w e) as (new1 & Hm1 & Hr1 & Ht1).
  destruct (step recognition w e) as [w1 out1].
  destruct (IH w1) as (new2 & Hm2 & Hr2 & Ht2).
  destruct (run recognition w1 es) as [w2 out2].
  cbn [fst snd] in *. exists (new1 ++ new2).
  unfold requests, queries in *.
  rewrite Hm2, Hm1, app_assoc, filter_app, Hr1, Hr2, omap_app, fmap_app.
  split_and!; [done..|]. by apply Forall_app.
Qed.
End Requests.

(** X2. On every run of the page from its initial state, the requests
    sent to the backend are, in order, one per user Turn of the
    conversation, each with the text of its Turn as the question. *)
Theorem requests_match_user_turns
    (recognition : bool) (es : list App.event) :
  App.requests (App.run recognition App.start es).2
  = App.chat_request
      <$> queries (App.messages (App.app (App.run recognition App.start es).1)).
Proof.
  by destruct (run_new_turns recognition es App.start) as (new & -> & -> & _).
Qed.

(** X3. On every run of the page from its initial state, the text of
    every user Turn is not empty and neither begins nor ends with white
    space. *)
Theorem user_turns_are_trimmed (recognition : bool) (es : list App.event) :
  Forall trimmed
    (queries (App.messages (App.app (App.run recognition App.start es).1))).
Proof.
  by destruct (run_new_turns recognition es App.start) as (new & -> & _ & Ht).
Qed.

(** ** The controls and the input text *)

(** The view is shown exactly when every Turn has a text React takes as
    a child, and what is shown then is the tree [App] returns. *)
Lemma displayed_cases (recognition : bool) (s : App.State) :
  (displayed recognition s = Some (App.render recognition s)
   ∧ Forall (λ t, renderable (App.text t) = true) (App.messages s))
  ∨ (displayed recognition s = None
     ∧ Exists (λ t, renderable (App.text t) = false) (App.messages s)).
Proof.
  unfold displayed.
  induction (App.messages s) as [|t ms IH]; cbn [forallb].
  { left. split; [done | constructor]. }
  destruct (renderable (App.text t)) eqn:Ht; cbn [andb].
  - destruct IH as [[Hd Hall]|[Hd Hex]].
    + left. destruct (forallb _ ms); [|done]. split; [done|].
      by constructor.
    + right. destruct (forallb _ ms); [done|]. split; [done|].
      by apply Exists_cons_tl.
  - right. split; [done|]. by apply Exists_cons_hd.
Qed.

(** X5. On every page reached from the initial one and shown by React
    (no Turn has a text that React refuses), the typing indicator is
    shown, and the text input and the microphone button are disabled,
    exactly while an activation of [handleSendMessage] is suspended on the
    network; the send button is enabled exactly when none is and the
    input has a character that is not white space; and the microphone
    button is there exactly when the host has speech recognition. A page
    with a Turn whose text React refuses (an object from the backend, or
    an array that holds one) shows none of this. *)
Theorem controls_follow_the_request
    (recognition : bool) (es : list App.event) (view : App.View) :
  let w := (App.run recognition App.start es).1 in
  displayed recognition (App.app w) = Some view →
  (App.loading_indicator view = true ↔ App.pending w ≠ [])
  ∧ (App.input_disabled view = true ↔ App.pending w ≠ [])
  ∧ (∀ mic, App.mic_button view = Some mic →
            (App.mic_disabled mic = true ↔ App.pending w ≠ []))
  ∧ (App.send_disabled view = false
     ↔ App.pending w = [] ∧ ¬ whitespace_only (App.userInput (App.app w)))
  ∧ (App.mic_button view = None ↔ recognition = false)
  ∧ Forall (λ t, renderable (App.text t) = true)
      (App.messages (App.app w)).
Proof.
  intros w Hshown.
  destruct (displayed_cases recognition (App.app w))
    as [[Hd Hall]|[Hd _]]; rewrite Hd in Hshown; [|done].
  injection Hshown as <-.
  destruct (run_consistent recognition App.start es start_consistent)
    as [_ Hlen]. fold w in Hlen.
  assert (Hl : App.isLoading (App.app w) = true ↔ App.pending w ≠ []).
  { destruct (App.isLoading (App.app w)), (App.pending w);
      split; intros; done. }
  unfold App.render.
  cbn [App.loading_indicator App.input_disabled App.mic_button
       App.send_disabled].
  split_and!; [done..| | | |done].
  - intros mic. destruct recognition; [|done]. by intros [= <-].
  - rewrite orb_false_iff, bool_decide_eq_false, trim_nil. split.
    + intros [Hload Hws]. split; [|done]. rewrite Hload in Hlen.
      by apply nil_length_inv.
    + intros [Hp Hws]. split; [|done]. rewrite Hp in Hlen.
      by destruct (App.isLoading (App.app w)).
  - by destruct recognition.
Qed.

Lemma controls_follow_the_request_witness :
  let es := [App.Type_into_input (lit "hi"); App.Click_send] in
  let w := (App.run true App.start es).1 in
  App.pending w ≠ []
  ∧ ∃ view, displayed true (App.app w) = Some view
      ∧ App.loading_indicator view = true
      ∧ App.input_disabled view = true.
Proof.
  intros es w.
  assert (Hshown : displayed true (App.app w)
                   = Some (App.render true (App.app w))) by reflexivity.
  destruct (controls_follow_the_request true es _ Hshown)
    as (Hindicator & Hinput & _).
  assert (Hp : App.pending w ≠ []) by discriminate.
  split; [exact Hp|]. eexists. split; [exact Hshown|].
  split; [by apply Hindicator | by apply Hinput].
Defined.

(** X6. Neither the microphone button nor any callback of the recognition
    touches the conversation, the loading flag or the suspended
    activations, and none of them sends a request. *)
Theorem speech_bridge_frame
    (recognition : bool) (w : App.World) (e : App.event) :
  of_speech_bridge e = true →
  let w' := (App.step recognition w e).1 in
  App.messages (App.app w') = App.messages (App.app w)
  ∧ App.isLoading (App.app w') = App.isLoading (App.app w)
  ∧ App.pending w' = App.pending w
  ∧ App.requests (App.step recognition w e).2 = [].
Proof.
  destruct e as [v| | |start_throws|ev|error| |i p|i p]; try done;
    intros _ w'; subst w'.
  - rewrite step_mic.
    destruct (recognition && negb (App.isLoading (App.app w))); [|done].
    destruct (App.isListening (App.app w)); [done|]. by destruct start_throws.
  - pose proof (step_speech_result recognition w ev) as Hstep.
    destruct (best ev) as [alt|]; [|destruct Hstep as (prop & Hstep)];
      rewrite Hstep; by destruct recognition.
  - rewrite step_speech_error. by destruct recognition.
  - rewrite step_speech_end. by destruct recognition.
Qed.

Lemma speech_bridge_frame_witness :
  let w := (App.run true App.start
              [App.Type_into_input (lit "hello"); App.Click_send]).1 in
  let w' := (App.step true w
               (App.Speech_result
                  {| App.results := [[{| App.transcript := lit "hi" |}]] |})).1 in
  App.messages (App.app w') = [user_turn (lit "hello")]
  ∧ App.isLoading (App.app w') = true
  ∧ App.pending w' = [App.awaiting_fetch].
Proof.
  intros w w'.
  destruct (speech_bridge_frame true w
              (App.Speech_result
                 {| App.results := [[{| App.transcript := lit "hi" |}]] |})
              eq_refl) as (Hm & Hl & Hp & _).
  subst w'. rewrite Hm, Hl, Hp. by split_and!.
Defined.

(** X7. The input text changes in three ways only: by typing, which does
    not happen while loading; by a submission, which empties it; and by a
    speech result with a best transcript, which replaces it even while
    loading. No other event, and no settlement of the call, touches it. *)
Theorem input_text_changes
    (recognition : bool) (w : App.World) (e : App.event) :
  App.userInput (App.app (App.step recognition w e).1)
  = match e with
    | App.Type_into_input v =>
        if App.isLoading (App.app w) then App.userInput (App.app w) else v
    | App.Click_send | App.Press_enter =>
        if App.send_disabled (App.render recognition (App.app w))
        then App.userInput (App.app w) else []
    | App.Speech_result ev =>
        match best ev with
        | Some alt =>
            if recognition then App.transcript alt
            else App.userInput (App.app w)
        | None => App.userInput (App.app w)
        end
    | _ => App.userInput (App.app w)
    end.
Proof.
  destruct e as [v| | |start_throws|ev|error| |i p|i p].
  - rewrite step_type. by destruct (App.isLoading (App.app w)).
  - rewrite (step_submit recognition w App.Click_send) by auto.
    by destruct (App.send_disabled _).
  - rewrite (step_submit recognition w App.Press_enter) by auto.
    by destruct (App.send_disabled _).
  - rewrite step_mic.
    destruct (recognition && negb (App.isLoading (App.app w))); [|done].
    destruct (App.isListening (App.app w)); [done|]. by destruct start_throws.
  - pose proof (step_speech_result recognition w ev) as Hstep.
    destruct (best ev) as [alt|]; [|destruct Hstep as (prop & Hstep)];
      rewrite Hstep; by destruct recognition.
  - rewrite step_speech_error. by destruct recognition.
  - rewrite step_speech_end. by destruct recognition.
  - pose proof (step_fetch_settles recognition w i p) as Hstep.
    destruct (App.pending w !! i) as [[|]|]; [|by rewrite Hstep..].
    by destruct Hstep as [(_ & error & ->)|(_ & ->)].
  - pose proof (step_json_settles recognition w i p) as Hstep.
    destruct (App.pending w !! i) as [[|]|];
      [by rewrite Hstep| |by rewrite Hstep].
    by destruct Hstep as [(j & _ & _ & ->)|(_ & error & ->)].
Qed.

(** ** Exceptions on the page *)

(** An [uncaught] report is not in a list of effects that are written
    out and are of other kinds. *)
Ltac no_uncaught :=
  let H := fresh in
  intros H;
  repeat (apply elem_of_cons in H as [H|H]; [discriminate H|]);
  by apply elem_of_nil in H.

(** X8. An exception leaves a handler of the page (a handler of a
    gesture, a callback of the recognition, a continuation of
    [handleSendMessage]) in two cases only, and in both the page stays as
    it was: [recognition.onresult] on an event without a first
    alternative of a first result, which throws a TypeError and so does
    not lower the listening flag; and a click on the microphone button
    with the flag down whose [recognition.start()] the host refuses,
    which ends with the exception of the host before the flag is raised.
    No submission and no settlement of the call ends in one. Apart from
    the handlers, the render throws exactly when a Turn has a text React
    refuses. *)
Theorem uncaught_exceptions_of_the_page :
  (∀ recognition w e error,
     uncaught error ∈ (App.step recognition w e).2 →
     recognition = true
     ∧ (App.step recognition w e).1 = w
     ∧ ((∃ ev, e = App.Speech_result ev ∧ best ev = None)
        ∨ (e = App.Click_mic (Some error)
           ∧ App.isLoading (App.app w) = false
           ∧ App.isListening (App.app w) = false)))
  ∧ (∀ w ev, best ev = None →
       ∃ prop, App.step true w (App.Speech_result ev)
               = (w, [uncaught (TypeError_read prop)]))
  ∧ (∀ w error,
       App.isLoading (App.app w) = false →
       App.isListening (App.app w) = false →
       App.step true w (App.Click_mic (Some error))
       = (w, [recognition_start; uncaught error]))
  ∧ (∀ recognition s,
       displayed recognition s = None
       ↔ Exists (λ t, renderable (App.text t) = false) (App.messages s)).
Proof.
  split; [|split; [|split]].
  - intros recognition w e error.
    destruct e as [v| | |start_throws|ev|error'| |i p|i p].
    + rewrite step_type. destruct (App.isLoading (App.app w));
        cbn [snd]; no_uncaught.
    + rewrite (step_submit recognition w App.Click_send) by auto.
      destruct (App.send_disabled _); cbn [snd]; no_uncaught.
    + rewrite (step_submit recognition w App.Press_enter) by auto.
      destruct (App.send_disabled _); cbn [snd]; no_uncaught.
    + rewrite step_mic. destruct recognition; cbn [andb]; [|no_uncaught].
      destruct (App.isLoading (App.app w)) eqn:Hload; cbn [negb];
        [no_uncaught|].
      destruct (App.isListening (App.app w)) eqn:Hl; [no_uncaught|].
      destruct start_throws as [error0|]; cbn [fst snd]; [|no_uncaught].
      intros Hin. apply elem_of_cons in Hin as [Hin|Hin]; [done|].
      apply list_elem_of_singleton in Hin. injection Hin as ->.
      split_and!; [done..|]. right. by split_and!.
    + pose proof (step_speech_result recognition w ev) as Hstep.
      destruct (best ev) as [alt|] eqn:Hb;
        [|destruct Hstep as (prop & Hstep)]; rewrite Hstep;
        destruct recognition; cbn [fst snd]; [no_uncaught..| |no_uncaught].
      intros _. split_and!; [done..|]. left. by exists ev.
    + rewrite step_speech_error. destruct recognition; cbn [snd]; no_uncaught.
    + rewrite step_speech_end. destruct recognition; cbn [snd]; no_uncaught.
    + pose proof (step_fetch_settles recognition w i p) as Hstep.
      destruct (App.pending w !! i) as [[|]|];
        [|rewrite Hstep; no_uncaught..].
      destruct Hstep as [(_ & error' & ->)|(_ & ->)]; cbn [snd]; no_uncaught.
    + pose proof (step_json_settles recognition w i p) as Hstep.
      destruct (App.pending w !! i) as [[|]|];
        [rewrite Hstep; no_uncaught| |rewrite Hstep; no_uncaught].
      destruct Hstep as [(j & _ & _ & ->)|(_ & error' & ->)];
        cbn [snd]; no_uncaught.
  - intros w ev Hb.
    pose proof (step_speech_result true w ev) as Hstep.
    by rewrite Hb in Hstep.
  - intros w error Hload Hl. rewrite step_mic. by rewrite Hload, Hl.
  - intros recognition s.
    destruct (displayed_cases recognition s) as [[-> Hall]|[-> Hex]].
    + split; [done|]. intros Hex. apply Exists_exists in Hex as (t & Ht & Hr).
      rewrite Forall_forall in Hall. specialize (Hall t Ht). congruence.
    + done.
Qed.

Lemma uncaught_exceptions_of_the_page_witness :
  let w := (App.run true App.start
              [App.Click_mic None;
               App.Speech_result
                 {| App.results := [[{| App.transcript := lit "hi" |}]] |}]).1 in
  App.isListening (App.app w) = false
  ∧ App.step true w (App.Click_mic (Some (HostError (lit "InvalidStateError"))))
    = (w, [recognition_start; uncaught (HostError (lit "InvalidStateError"))])
  ∧ (∃ prop, App.step true w (App.Speech_result {| App.results := [[]] |})
             = (w, [uncaught (TypeError_read prop)]))
  ∧ displayed true
      (settled_with
         (bot_turn (of_json (JObject [(lit "text", JString (lit "ho"))])))
         (submitted (lit "hi") App.initial))
    = None.
Proof.
  intros w.
  destruct uncaught_exceptions_of_the_page as (_ & Hresult & Hmic & Hrender).
  split_and!.
  - reflexivity.
  - apply Hmic; reflexivity.
  - apply Hresult. reflexivity.
  - apply Hrender. apply Exists_cons_tl, Exists_cons_hd. reflexivity.
Defined.

(** ** More on the handlers of [App] *)

(** X10. A 2xx response whose body does not read as JSON ends like a
    failure: the body is asked for, and when the read is rejected the
    Turn of the bot carries the generic failure message, the rejection is
    logged and the loading flag goes down. *)
Theorem unreadable_body_is_a_failure
    (response : Response) (reason : exn) (s : App.State) :
  (200 ≤ status response ≤ 299)%N →
  App.handleSendMessage_after_fetch (Fulfilled response) s
  = Result s [response_json] (Await App.awaiting_json)
  ∧ App.handleSendMessage_after_json (Rejected reason) s
    = Result {| App.messages := App.messages s ++ [failure_turn];
                App.userInput := App.userInput s;
                App.isLoading := false;
                App.isListening := App.isListening s |}
        [console_error (lit "Error sending message:") (log_exn reason)]
        (Return ()).
Proof.
  intros Hstatus. split.
  - by apply after_fetch_ok, ok_true.
  - apply after_json_rejected.
Qed.

Lemma unreadable_body_is_a_failure_witness :
  let r := App.handleSendMessage_after_json
             (Rejected (HostError (lit "Unexpected end of JSON input")))
             (submitted (lit "hi") App.initial) in
  App.messages (final r) = [user_turn (lit "hi"); failure_turn]
  ∧ App.isLoading (final r) = false.
Proof.
  intros r.
  assert (Hstatus : (200 ≤ status {| status := 204 |} ≤ 299)%N)
    by (simpl; lia).
  destruct (unreadable_body_is_a_failure {| status := 204 |}
              (HostError (lit "Unexpected end of JSON input"))
              (submitted (lit "hi") App.initial) Hstatus) as [_ Hjson].
  subst r. rewrite Hjson. split; reflexivity.
Defined.

(** ** The segments of [ChatComponent.handleSubmit] *)

Section ChatSegments.
Import ChatComponent.
Context (engine : jsstring → jsstring) (cannot_convert : jsstring).

Lemma chat_submit_send (c : State) :
  trim (question c) ≠ [] →
  handleSubmit engine c
  = Result (asked c) [preventDefault; chat_request (question c)]
      (Await awaiting_fetch).
Proof.
  intros Hq. unfold handleSubmit. cbv [mbind js_bind emit gets].
  cbn [outcome final effects]. by rewrite bool_decide_eq_false_2.
Qed.

Lemma chat_submit_blank (c : State) :
  trim (question c) = [] →
  handleSubmit engine c = Result c [preventDefault] (Return ()).
Proof.
  intros Hq. unfold handleSubmit. cbv [mbind js_bind emit gets].
  cbn [outcome final effects]. by rewrite Hq.
Qed.

Lemma chat_after_fetch_rejected (reason : exn) (c : State) :
  handleSubmit_after_fetch engine (Rejected reason) c
  = Result (refused (message engine reason) c)
      [console_error (lit "Failed to fetch chat response:") (log_exn reason)]
      (Return ()).
Proof. done. Qed.

Lemma chat_after_fetch_ok (response : Response) (c : State) :
  ok response = true →
  handleSubmit_after_fetch engine (Fulfilled response) c
  = Result c [response_json] (Await awaiting_json).
Proof.
  intros Hok. unfold handleSubmit_after_fetch, try_catch_finally.
  cbv [mbind js_bind resume mret js_ret]. cbn [outcome final effects].
  rewrite Hok. by destruct c.
Qed.

Lemma chat_after_error_json (response : Response) (p : settled json)
    (c : State) :
  ∃ error,
    handleSubmit_after_error_json engine cannot_convert response p c
    = Result (refused (message engine error) c)
        [console_error (lit "Failed to fetch chat response:") (log_exn error)]
        (Return ()).
Proof.
  destruct p as [j|reason]; [|by eexists].
  destruct j; [by eexists|..];
    (eexists; by rewrite after_error_json_value).
Qed.

Lemma chat_after_json_value (j : json) (c : State) :
  j ≠ JNull →
  handleSubmit_after_json engine (Fulfilled j) c
  = Result (answered (member j (lit "answer")) c) [] (Return ()).
Proof. intros Hj. by destruct j. Qed.

Lemma chat_after_json_unreadable (p : settled json) (c : State) :
  p = Fulfilled JNull ∨ (∃ reason, p = Rejected reason) →
  ∃ error,
    handleSubmit_after_json engine p c
    = Result (refused (message engine error) c)
        [console_error (lit "Failed to fetch chat response:") (log_exn error)]
        (Return ()).
Proof. intros [-> | (reason & ->)]; by eexists. Qed.

Lemma chat_after_json_cases (p : settled json) (c : State) :
  (∃ v, handleSubmit_after_json engine p c
        = Result (answered v c) [] (Return ()))
  ∨ (∃ error,
       handleSubmit_after_json engine p c
       = Result (refused (message engine error) c)
           [console_error (lit "Failed to fetch chat response:")
              (log_exn error)]
           (Return ())).
Proof.
  destruct p as [j|reason].
  - destruct j;
      [right; apply chat_after_json_unreadable; by left|..];
      (left; eexists; by apply chat_after_json_value).
  - right. apply chat_after_json_unreadable. right. by eexists.
Qed.
End ChatSegments.

(** ** The page of [ChatComponent] *)

Section ChatPageEvents.
Import ChatComponent.
Context (engine : jsstring → jsstring) (cannot_convert : jsstring).

(** What one event does to the page of [ChatComponent]: nothing to the
    answer, the error and the loading flag; or a submission; or the end
    of a call with an error message; or the end of a call with an
    answer. *)
Lemma chat_step_cases (w : ChatPage.World) (e : ChatPage.event) :
  let c := ChatPage.chat w in
  let w' := (ChatPage.step engine cannot_convert w e).1 in
  (answer (ChatPage.chat w') = answer c
   ∧ error (ChatPage.chat w') = error c
   ∧ isLoading (ChatPage.chat w') = isLoading c
   ∧ length (ChatPage.pending w') = length (ChatPage.pending w))
  ∨ (isLoading c = false
     ∧ ChatPage.chat w' = asked c
     ∧ ChatPage.pending w' = ChatPage.pending w ++ [awaiting_fetch])
  ∨ (∃ i m, i < length (ChatPage.pending w)
     ∧ ChatPage.chat w' = refused m c
     ∧ ChatPage.pending w' = delete i (ChatPage.pending w))
  ∨ (∃ i v, i < length (ChatPage.pending w)
     ∧ ChatPage.chat w' = answered v c
     ∧ ChatPage.pending w' = delete i (ChatPage.pending w)).
Proof.
  intros c w'. subst c w'.
  assert (Hsubmit :
    isLoading (ChatPage.chat w) = false →
    let w' := (ChatPage.dispatch (handleSubmit engine) w).1 in
    (answer (ChatPage.chat w') = answer (ChatPage.chat w)
     ∧ error (ChatPage.chat w') = error (ChatPage.chat w)
     ∧ isLoading (ChatPage.chat w') = isLoading (ChatPage.chat w)
     ∧ length (ChatPage.pending w') = length (ChatPage.pending w))
    ∨ (isLoading (ChatPage.chat w) = false
       ∧ ChatPage.chat w' = asked (ChatPage.chat w)
       ∧ ChatPage.pending w' = ChatPage.pending w ++ [awaiting_fetch])).
  { intros Hl. unfold ChatPage.dispatch.
    destruct (decide (trim (question (ChatPage.chat w)) = [])) as [Hq|Hq].
    - left. rewrite chat_submit_blank by done.
      cbn [fst ChatPage.chat ChatPage.pending final outcome].
      by rewrite app_nil_r.
    - right. by rewrite chat_submit_send. }
  destruct e as [v| | |i p|i p|i p]; cbn [ChatPage.step];
    unfold ChatPage.render;
    cbn [ChatPage.input_disabled ChatPage.button_disabled].
  - destruct (isLoading (ChatPage.chat w)) eqn:Hl; [by left|].
    left. unfold ChatPage.dispatch.
    cbn [fst ChatPage.chat ChatPage.pending final outcome].
    split_and!; [done..|]. cbn. by rewrite app_nil_r.
  - destruct (isLoading (ChatPage.chat w)) eqn:Hl; [by left|].
    destruct (Hsubmit eq_refl) as [H|H]; [by left | right; by left].
  - destruct (isLoading (ChatPage.chat w)) eqn:Hl; [by left|]. cbn [orb].
    destruct (Hsubmit eq_refl) as [H|H]; [by left | right; by left].
  - destruct (ChatPage.pending w !! i) as [[| |]|] eqn:Hi; [|by left..].
    unfold ChatPage.continue. destruct p as [response|reason].
    + left. destruct (ok response) eqn:Hok.
      * rewrite chat_after_fetch_ok by done.
        cbn [fst ChatPage.chat ChatPage.pending final outcome].
        by rewrite length_insert.
      * rewrite after_fetch_not_ok_reads_body by done.
        cbn [fst ChatPage.chat ChatPage.pending final outcome].
        by rewrite length_insert.
    + right; right; left. rewrite chat_after_fetch_rejected.
      exists i, (message engine reason).
      by apply lookup_lt_Some in Hi.
  - destruct (ChatPage.pending w !! i) as [[|response|]|] eqn:Hi;
      [by left| |by left..].
    unfold ChatPage.continue.
    destruct (chat_after_error_json engine cannot_convert response p
                (ChatPage.chat w)) as (err & ->).
    right; right; left. exists i, (message engine err).
    by apply lookup_lt_Some in Hi.
  - destruct (ChatPage.pending w !! i) as [[| |]|] eqn:Hi; [by left..| |by left].
    unfold ChatPage.continue.
    destruct (chat_after_json_cases engine p (ChatPage.chat w))
      as [(v & ->)|(err & ->)].
    + right; right; right. exists i, v. by apply lookup_lt_Some in Hi.
    + right; right; left. exists i, (message engine err).
      by apply lookup_lt_Some in Hi.
Qed.

Lemma chat_step_consistent (w : ChatPage.World) (e : ChatPage.event) :
  chat_consistent w → chat_consistent (ChatPage.step engine cannot_convert w e).1.
Proof.
  intros (Hlen & Hload & Hexcl).
  destruct (chat_step_cases w e)
    as [(Ha & He & Hl & Hp)|[(Hl & Hs & Hp)|
        [(i & m & Hi & Hs & Hp)|(i & v & Hi & Hs & Hp)]]];
    unfold chat_consistent; cbn zeta.
  - by rewrite Ha, He, Hl, Hp.
  - rewrite Hs, Hp. rewrite Hl in Hlen.
    apply nil_length_inv in Hlen as ->. split_and!; [done|done|by left].
  - rewrite Hs, Hp. cbn [refused isLoading error answer].
    destruct (isLoading (ChatPage.chat w)); [|lia].
    destruct (Hload eq_refl) as [_ Hanswer]. split_and!; [|done|by right].
    rewrite length_delete; [lia|]. by apply lookup_lt_is_Some_2.
  - rewrite Hs, Hp. cbn [answered isLoading error answer].
    destruct (isLoading (ChatPage.chat w)); [|lia].
    destruct (Hload eq_refl) as [Herror _]. split_and!; [|done|by left].
    rewrite length_delete; [lia|]. by apply lookup_lt_is_Some_2.
Qed.

Lemma chat_run_consistent (w : ChatPage.World) (es : list ChatPage.event) :
  chat_consistent w → chat_consistent (ChatPage.run engine cannot_convert w es).1.
Proof.
  revert w. induction es as [|e es IH]; intros w Hw; [done|].
  cbn [ChatPage.run]. pose proof (chat_step_consistent w e Hw) as Hw1.
  destruct (ChatPage.step engine cannot_convert w e) as [w1 out1].
  specialize (IH w1 Hw1).
  by destruct (ChatPage.run engine cannot_convert w1 es) as [w2 out2].
Qed.

Lemma chat_start_consistent : chat_consistent ChatPage.start.
Proof. split_and!; [done|done|by left]. Qed.
End ChatPageEvents.

(** X11. In the secondary variant, too, at most one request is
    outstanding: while loading, a click on the button or the Enter key
    changes nothing and sends nothing, and on every run of its page from
    the initial state at most one activation of [handleSubmit] is
    suspended. *)
Theorem chat_one_request_at_a_time
    (engine : jsstring → jsstring) (cannot_convert : jsstring) :
  (∀ w, ChatComponent.isLoading (ChatPage.chat w) = true →
        ChatPage.step engine cannot_convert w ChatPage.Click_send = (w, [])
        ∧ ChatPage.step engine cannot_convert w ChatPage.Press_enter
          = (w, []))
  ∧ (∀ es,
       length (ChatPage.pending
                 (ChatPage.run engine cannot_convert ChatPage.start es).1)
       ≤ 1).
Proof.
  split.
  - intros w Hl. cbn [ChatPage.step]. unfold ChatPage.render.
    cbn [ChatPage.input_disabled ChatPage.button_disabled].
    by rewrite Hl.
  - intros es.
    destruct (chat_run_consistent engine cannot_convert ChatPage.start es
                chat_start_consistent) as (Hlen & _).
    rewrite Hlen. destruct (ChatComponent.isLoading _); lia.
Qed.

Lemma chat_one_request_at_a_time_witness :
  let w := (ChatPage.run v8_TypeError_message v8_cannot_convert
              ChatPage.start
              [ChatPage.Type_into_input (lit "hello");
               ChatPage.Click_send]).1 in
  ChatComponent.isLoading (ChatPage.chat w) = true
  ∧ ChatPage.pending w = [ChatComponent.awaiting_fetch]
  ∧ ChatPage.step v8_TypeError_message v8_cannot_convert w
      ChatPage.Click_send = (w, []).
Proof.
  intros w. split; [reflexivity|]. split; [reflexivity|].
  apply (proj1 (chat_one_request_at_a_time v8_TypeError_message
                  v8_cannot_convert) w).
  reflexivity.
Defined.

(** X12. On every page the secondary variant reaches from its initial
    state, the error line and the answer paragraph are never shown
    together, and while loading (the button reads [Thinking...]) neither
    is shown: a submission clears both, and a call ends with one of the
    two. *)
Theorem chat_never_shows_answer_and_error
    (engine : jsstring → jsstring) (cannot_convert : jsstring)
    (es : list ChatPage.event) :
  let c := ChatPage.chat
             (ChatPage.run engine cannot_convert ChatPage.start es).1 in
  let view := ChatPage.render c in
  ¬ (is_Some (ChatPage.error_shown view)
     ∧ is_Some (ChatPage.answer_shown view))
  ∧ (ChatPage.button_label view = lit "Thinking..." →
     ChatPage.error_shown view = None ∧ ChatPage.answer_shown view = None).
Proof.
  intros c view. subst view.
  destruct (chat_run_consistent engine cannot_convert ChatPage.start es
              chat_start_consistent) as (_ & Hload & Hexcl).
  fold c in Hload, Hexcl. clearbody c. unfold ChatPage.render.
  cbn [ChatPage.error_shown ChatPage.answer_shown ChatPage.button_label].
  unfold ChatComponent.error_line. split.
  - intros [[m Hm] [v Hv]]. destruct Hexcl as [He|Ha].
    + by rewrite He in Hm.
    + by rewrite Ha in Hv.
  - destruct (ChatComponent.isLoading c).
    + intros _. by destruct (Hload eq_refl) as [-> ->].
    + intros Hlabel. vm_compute in Hlabel. discriminate.
Qed.

Lemma chat_never_shows_answer_and_error_witness :
  let c := ChatPage.chat
             (ChatPage.run v8_TypeError_message v8_cannot_convert
                ChatPage.start
                [ChatPage.Type_into_input (lit "hello");
                 ChatPage.Click_send]).1 in
  ChatPage.button_label (ChatPage.render c) = lit "Thinking..."
  ∧ ChatPage.error_shown (ChatPage.render c) = None
  ∧ ChatPage.answer_shown (ChatPage.render c) = None.
Proof.
  intros c. split; [reflexivity|].
  apply (proj2 (chat_never_shows_answer_and_error v8_TypeError_message
                  v8_cannot_convert
                  [ChatPage.Type_into_input (lit "hello");
                   ChatPage.Click_send])).
  reflexivity.
Defined.

(** ** The two variants side by side *)

(** X13. For the same text typed, the primary view sends the text without
    its margins of white space and empties its input, while the secondary
    variant sends the text as typed and keeps it in its input; the two
    requests are the same exactly when the text neither begins nor ends
    with white space. *)
Theorem question_sent_trimmed_or_as_typed
    (engine : jsstring → jsstring) (v : jsstring)
    (s : App.State) (c : ChatComponent.State) :
  trim v ≠ [] →
  App.userInput s = v →
  ChatComponent.question c = v →
  App.requests (effects (App.handleSendMessage s))
  = [App.chat_request (trim v)]
  ∧ App.userInput (final (App.handleSendMessage s)) = []
  ∧ App.requests (effects (ChatComponent.handleSubmit engine c))
    = [ChatComponent.chat_request v]
  ∧ ChatComponent.question (final (ChatComponent.handleSubmit engine c)) = v
  ∧ (App.chat_request (trim v) = ChatComponent.chat_request v ↔ trimmed v).
Proof.
  intros Hv <- Hc. rewrite handleSendMessage_send by done.
  rewrite chat_submit_send by (by rewrite Hc). rewrite Hc.
  split_and!; [done..|]. split.
  - intros [= Heq]. rewrite <- Heq. by apply trim_trimmed.
  - intros Ht. by rewrite trim_fixed.
Qed.

Lemma question_sent_trimmed_or_as_typed_witness :
  let v := lit " hi " in
  App.requests (effects (App.handleSendMessage (with_input v App.initial)))
  = [App.chat_request (lit "hi")]
  ∧ App.requests
      (effects (ChatComponent.handleSubmit v8_TypeError_message
                  {| ChatComponent.question := v;
                     ChatComponent.answer := of_json (JString []);
                     ChatComponent.isLoading := false;
                     ChatComponent.error := None |}))
    = [ChatComponent.chat_request (lit " hi ")].
Proof.
  intros v.
  assert (Hv : trim v ≠ []) by (vm_compute; discriminate).
  destruct (question_sent_trimmed_or_as_typed v8_TypeError_message v
              (with_input v App.initial)
              {| ChatComponent.question := v;
                 ChatComponent.answer := of_json (JString []);
                 ChatComponent.isLoading := false;
                 ChatComponent.error := None |}
              Hv eq_refl eq_refl) as (Happ & _ & Hchat & _).
  rewrite Happ, Hchat. split; reflexivity.
Defined.

(** X14. No segment of [ChatComponent.handleSubmit] ends with an
    exception, and every segment that ends after a settlement leaves the
    loading flag down. *)
Theorem chat_no_exception_escapes
    (engine : jsstring → jsstring) (cannot_convert : jsstring)
    (c : ChatComponent.State)
    (p : settled Response) (response : Response) (pj : settled json) :
  (∀ error,
     outcome (ChatComponent.handleSubmit engine c) ≠ Throw error
     ∧ outcome (ChatComponent.handleSubmit_after_fetch engine p c)
       ≠ Throw error
     ∧ outcome (ChatComponent.handleSubmit_after_error_json engine
                  cannot_convert response pj c) ≠ Throw error
     ∧ outcome (ChatComponent.handleSubmit_after_json engine pj c)
       ≠ Throw error)
  ∧ (outcome (ChatComponent.handleSubmit_after_fetch engine p c) = Return ()
     → ChatComponent.isLoading
         (final (ChatComponent.handleSubmit_after_fetch engine p c)) = false)
  ∧ (outcome (ChatComponent.handleSubmit_after_error_json engine
                cannot_convert response pj c) = Return ()
     ∧ ChatComponent.isLoading
         (final (ChatComponent.handleSubmit_after_error_json engine
                   cannot_convert response pj c)) = false)
  ∧ (outcome (ChatComponent.handleSubmit_after_json engine pj c) = Return ()
     ∧ ChatComponent.isLoading
         (final (ChatComponent.handleSubmit_after_json engine pj c)) = false).
Proof.
  assert (Hfetch :
    (∃ m out, ChatComponent.handleSubmit_after_fetch engine p c
              = Result (refused m c) out (Return ()))
    ∨ (∃ t, ChatComponent.handleSubmit_after_fetch engine p c
            = Result c [response_json] (Await t))).
  { destruct p as [r|reason].
    - right. destruct (ok r) eqn:Hok.
      + eexists. by apply chat_after_fetch_ok.
      + eexists. by apply after_fetch_not_ok_reads_body.
    - left. do 2 eexists. apply chat_after_fetch_rejected. }
  destruct (chat_after_error_json engine cannot_convert response pj c)
    as (e1 & He).
  split; [|split; [|split]].
  - intros error. split_and!.
    + destruct (decide (trim (ChatComponent.question c) = [])) as [Hq|Hq].
      * by rewrite chat_submit_blank.
      * by rewrite chat_submit_send.
    + by destruct Hfetch as [(m & out & ->)|(t & ->)].
    + by rewrite He.
    + by destruct (chat_after_json_cases engine pj c)
        as [(v & ->)|(e2 & ->)].
  - by destruct Hfetch as [(m & out & ->)|(t & ->)].
  - by rewrite He.
  - by destruct (chat_after_json_cases engine pj c) as [(v & ->)|(e2 & ->)].
Qed.

(** X15. How a call of the secondary variant ends. A fetch that fails in
    transport shows the message of the host's exception in the error
    line state and logs it. On a 2xx response the body is read; a body
    other than [null] puts its [answer] (or [undefined], when it has
    none) into the answer state and leaves the error state alone; a body
    that is [null] or does not read as JSON ends with an error message
    instead of an answer. *)
Theorem chat_call_outcomes
    (engine : jsstring → jsstring) (response : Response)
    (c : ChatComponent.State) :
  (200 ≤ status response ≤ 299)%N →
  (∀ reason,
     ChatComponent.handleSubmit_after_fetch engine (Rejected reason) c
     = Result (refused (ChatComponent.message engine reason) c)
         [console_error (lit "Failed to fetch chat response:")
            (log_exn reason)]
         (Return ()))
  ∧ ChatComponent.handleSubmit_after_fetch engine (Fulfilled response) c
    = Result c [response_json] (Await ChatComponent.awaiting_json)
  ∧ (∀ j, j ≠ JNull →
       ChatComponent.handleSubmit_after_json engine (Fulfilled j) c
       = Result (answered (member j (lit "answer")) c) [] (Return ()))
  ∧ (∀ p, p = Fulfilled JNull ∨ (∃ reason, p = Rejected reason) →
       ∃ error,
         ChatComponent.handleSubmit_after_json engine p c
         = Result (refused (ChatComponent.message engine error) c)
             [console_error (lit "Failed to fetch chat response:")
                (log_exn error)]
             (Return ())).
Proof.
  intros Hstatus. split_and!.
  - intros reason. apply chat_after_fetch_rejected.
  - by apply chat_after_fetch_ok, ok_true.
  - intros j Hj. by apply chat_after_json_value.
  - intros p Hp. by apply chat_after_json_unreadable.
Qed.

Lemma chat_call_outcomes_witness :
  let c := asked ChatComponent.initial in
  ChatComponent.answer
    (final (ChatComponent.handleSubmit_after_json v8_TypeError_message
              (Fulfilled (JObject [(lit "answer", JString (lit "ho"))])) c))
  = of_json (JString (lit "ho"))
  ∧ ChatComponent.error
      (final (ChatComponent.handleSubmit_after_fetch v8_TypeError_message
                (Rejected (HostError (lit "Failed to fetch"))) c))
    = Some (lit "Failed to fetch").
Proof.
  intros c.
  assert (Hstatus : (200 ≤ status {| status := 200 |} ≤ 299)%N)
    by (simpl; lia).
  destruct (chat_call_outcomes v8_TypeError_message {| status := 200 |} c
              Hstatus) as (Hreject & _ & Hanswer & _).
  rewrite Hreject, Hanswer by discriminate. split; reflexivity.
Defined.

(** ** The message list *)

(** X16. On every page reached from the initial one and shown by React
    (no Turn has a text that React refuses), the message list shows one
    entry per Turn, in the order of the conversation, with the text of
    the Turn as its content, which is one React takes as a child, the
    person avatar exactly for the Turns of the user and the robot avatar
    exactly for the Turns of the bot. *)
Theorem avatars_follow_senders
    (recognition : bool) (es : list App.event) (view : App.View) :
  let s := App.app (App.run recognition App.start es).1 in
  displayed recognition s = Some view →
  let entries := App.message_list view in
  length entries = length (App.messages s)
  ∧ ∀ i t, App.messages s !! i = Some t →
      ∃ entry, entries !! i = Some entry
        ∧ App.content entry = App.text t
        ∧ renderable (App.content entry) = true
        ∧ (App.avatar entry = App.person ↔ App.sender t = lit "user")
        ∧ (App.avatar entry = App.robot ↔ App.sender t = lit "bot").
Proof.
  intros s Hshown entries. subst entries.
  destruct (displayed_cases recognition s)
    as [[Hd Hall]|[Hd _]]; rewrite Hd in Hshown; [|done].
  injection Hshown as <-.
  destruct (run_appends recognition es App.start) as (new & Hm & Hv).
  fold s in Hm. cbn [App.start App.app App.initial App.messages app] in Hm.
  clearbody s. unfold App.render. cbn [App.message_list].
  split; [by rewrite length_fmap|].
  intros i t Ht. exists (App.render_message t).
  rewrite list_lookup_fmap, Ht. split; [done|]. split; [done|].
  apply list_elem_of_lookup_2 in Ht.
  split.
  { rewrite Forall_forall in Hall. by apply Hall. }
  rewrite Hm in Ht.
  rewrite Forall_forall in Hv. specialize (Hv t Ht).
  unfold App.render_message. cbn [App.avatar].
  destruct Hv as [Hu|Hb]; rewrite ?Hu, ?Hb.
  - rewrite bool_decide_eq_true_2 by done.
    split; split; first [done | intros Heq; vm_compute in Heq; discriminate].
  - rewrite bool_decide_eq_false_2
      by (intros Heq; vm_compute in Heq; discriminate).
    split; split; first [done | intros Heq; vm_compute in Heq; discriminate].
Qed.

Lemma avatars_follow_senders_witness :
  let es := [App.Type_into_input (lit "hi"); App.Click_send;
             App.Fetch_settles 0
               (Rejected (HostError (lit "Failed to fetch")))] in
  let s := App.app (App.run true App.start es).1 in
  ∃ view entry,
    displayed true s = Some view
    ∧ App.message_list view !! 1 = Some entry
    ∧ App.content entry = of_json (JString App.generic_failure)
    ∧ (App.avatar entry = App.robot ↔ lit "bot" = lit "bot").
Proof.
  intros es s.
  assert (Hshown : displayed true s = Some (App.render true s))
    by reflexivity.
  destruct (proj2 (avatars_follow_senders true es _ Hshown)
              1 failure_turn eq_refl)
    as (entry & He & Hc & _ & _ & Hrobot).
  exists (App.render true s), entry.
  split; [exact Hshown|]. split; [exact He|].
  split; [exact Hc | exact Hrobot].
Defined.

Lemma chat_no_exception_escapes_witness :
  let c := asked ChatComponent.initial in
  let r := ChatComponent.handleSubmit_after_fetch v8_TypeError_message
             (Rejected (HostError (lit "Failed to fetch"))) c in
  outcome r = Return () ∧ ChatComponent.isLoading (final r) = false.
Proof.
  intros c r. split; [reflexivity|].
  destruct (chat_no_exception_escapes v8_TypeError_message
              v8_cannot_convert c
              (Rejected (HostError (lit "Failed to fetch")))
              {| status := 500 |} (Fulfilled JNull)) as (_ & Hfetch & _).
  apply Hfetch. reflexivity.
Defined.
